(** * whoami: front-matter parsing, excerpts and ranking of app.py

    A shallow embedding of [app.py]: the two front-matter parsers, the
    excerpt extractor, the entity builders and the three ranking policies,
    the page handlers over them, and the request metrics with the access
    log, followed by the properties proved of them.

    Modelling conventions.
    - A Python [str] is a list of characters; a character is a code point
      below 256 (Rocq's [ascii]), so the Latin-1 part of Unicode is covered:
      whitespace, line boundaries and case mapping are those of CPython on
      that range.
    - An exception is a value of [exn]; code that may raise lives in the
      error monad [result].  Library calls that can only fail with
      [ValueError] on a [str] argument ([int], [datetime.fromisoformat],
      [datetime.strptime]) return [option], [None] standing for that
      [ValueError]; every [try ... except ValueError] of the source is a
      [match] on such an option.
    - Times and durations are integers, in microseconds.  A [float] of
      seconds is the binary64 number the code computes from them, and floats
      are compared by their values.
    - A handler answers with a [page]: the template it renders and the
      values handed to it; the rendering of the templates is not modelled.
      [abort(404)] raises [NotFound].
    - The loaders come in two layers.  The first works on an [md_file], a
      file with its text and its modification time as they were read; the
      second, in the module [IO], works on a [directory] of [Path]s whose
      [mkdir], [glob], [read_text] and [stat] may each raise, in the order
      in which the source calls them.  The directories are read anew at
      every request and are arguments of the handlers.
    - The interpreter and the platform (the ISO parser of the running
      version, the local time zone, the markdown renderer) are the fields of
      the class [Runtime]; [cpython_utc] is a reference instance used to
      evaluate the code on concrete documents. *)

From Stdlib Require Import List Ascii ZArith NArith Lia Bool.
From Stdlib Require Import Permutation Sorted.
From Stdlib Require String DecimalString.
Import ListNotations.
Import String.StringSyntax.

Open Scope string_scope.
Open Scope list_scope.
Open Scope Z_scope.

(** ** Exceptions *)

Inductive exn : Type :=
| ValueError
| TypeError
| IndexError
| OverflowError
| OSError
| UnicodeDecodeError
| NotFound.

Inductive result (A : Type) : Type :=
| Ok (a : A)
| Raise (e : exn).

Arguments Ok {A} a.
Arguments Raise {A} e.

Definition bind {A B : Type} (m : result A) (k : A -> result B) : result B :=
  match m with
  | Ok a => k a
  | Raise e => Raise e
  end.

Notation "x <- m ;; k" := (bind m (fun x => k))
  (at level 61, m at next level, right associativity).

(** A [for] loop whose body may raise: the state is threaded from left to
    right and the first exception leaves the loop. *)
Fixpoint for_each {S A : Type} (body : S -> A -> result S) (l : list A) (st : S)
  : result S :=
  match l with
  | [] => Ok st
  | x :: l' => st' <- body st x ;; for_each body l' st'
  end.

(** A list comprehension whose element expression may raise. *)
Fixpoint map_result {A B : Type} (f : A -> result B) (l : list A)
  : result (list B) :=
  match l with
  | [] => Ok []
  | x :: l' => y <- f x ;; ys <- map_result f l' ;; Ok (y :: ys)
  end.

(** ** Strings *)

Definition str : Type := list ascii.

Definition lit (s : String.string) : list ascii := String.list_ascii_of_string s.
Coercion lit : String.string >-> list.

Definition code (c : ascii) : N := N_of_ascii c.

(** Truth value of a string: non-empty. *)
Definition truthy (s : str) : bool :=
  match s with
  | [] => false
  | _ :: _ => true
  end.

(** [str.isspace] on one character: TAB..CR, FS..US, space, NEL, NBSP. *)
Definition isspace (c : ascii) : bool :=
  let n := code c in
  ((9 <=? n) && (n <=? 13) || (28 <=? n) && (n <=? 32)
   || (n =? 133) || (n =? 160))%N.

(** The line boundaries of [str.splitlines]: LF, VT, FF, CR, FS, GS, RS, NEL
    (CR LF counts as one). *)
Definition is_linebreak (c : ascii) : bool :=
  let n := code c in
  ((10 <=? n) && (n <=? 13) || (28 <=? n) && (n <=? 30) || (n =? 133))%N.

Definition lower_char (c : ascii) : ascii :=
  let n := code c in
  if ((65 <=? n) && (n <=? 90)
      || (192 <=? n) && (n <=? 222) && negb (n =? 215))%N
  then ascii_of_N (n + 32)
  else c.

Definition lower (s : str) : str := map lower_char s.

Fixpoint startswith (prefix s : str) : bool :=
  match prefix, s with
  | [], _ => true
  | _ :: _, [] => false
  | a :: prefix', b :: s' => Ascii.eqb a b && startswith prefix' s'
  end.

Fixpoint lstrip_with (p : ascii -> bool) (s : str) : str :=
  match s with
  | [] => []
  | c :: s' => if p c then lstrip_with p s' else s
  end.

Definition rstrip_with (p : ascii -> bool) (s : str) : str :=
  rev (lstrip_with p (rev s)).

(** [s.rstrip()], [s.strip()] and [s.rstrip(chars)]. *)
Definition rstrip (s : str) : str := rstrip_with isspace s.
Definition strip (s : str) : str := lstrip_with isspace (rstrip s).

Definition rstrip_chars (chars s : str) : str :=
  rstrip_with (fun c => existsb (Ascii.eqb c) chars) s.

(** [s.splitlines()]: [cur] is the line being read, reversed. *)
Fixpoint splitlines_from (s cur : str) : list str :=
  match s with
  | [] =>
      match cur with
      | [] => []
      | _ :: _ => [rev cur]
      end
  | c :: s' =>
      if is_linebreak c then
        rev cur ::
          match s' with
          | c' :: s'' =>
              if Ascii.eqb c "013" && Ascii.eqb c' "010"
              then splitlines_from s'' []
              else splitlines_from s' []
          | [] => splitlines_from s' []
          end
      else splitlines_from s' (c :: cur)
  end.

Definition splitlines (s : str) : list str := splitlines_from s [].

(** The first occurrence of [sep]: the text before it and the text after. *)
Fixpoint partition (sep s : str) : option (str * str) :=
  if startswith sep s then Some ([], skipn (length sep) s)
  else
    match s with
    | [] => None
    | c :: s' =>
        match partition sep s' with
        | Some (before, after) => Some (c :: before, after)
        | None => None
        end
    end.

(** [s.split(sep, maxsplit)] for a non-empty [sep]: at most [maxsplit]
    cuts, the rest of the text being the last item. *)
Fixpoint split_max (maxsplit : nat) (sep s : str) : list str :=
  match maxsplit with
  | O => [s]
  | S n =>
      match partition sep s with
      | Some (before, after) => before :: split_max n sep after
      | None => [s]
      end
  end.

(** [s.split(sep)]: no bound on the number of cuts; a text of [n]
    characters has fewer than [n + 1] occurrences of a non-empty [sep]. *)
Definition split (sep s : str) : list str := split_max (length s) sep s.

(** [sep.join(items)]. *)
Fixpoint join (sep : str) (items : list str) : str :=
  match items with
  | [] => []
  | [x] => x
  | x :: items' => x ++ sep ++ join sep items'
  end.

(** [s.replace(old, new)] for a non-empty [old]: the occurrences are the
    cuts of [s.split(old)]. *)
Definition replace (old new s : str) : str := join new (split old s).

(** What [replace] does to one character when [old] and [new] are single
    characters. *)
Definition swap_char (c d x : ascii) : ascii := if Ascii.eqb x c then d else x.

(** [items[i]]. *)
Definition index {A : Type} (items : list A) (i : nat) : result A :=
  match nth_error items i with
  | Some x => Ok x
  | None => Raise IndexError
  end.

(** ** [int(s)] in base ten

    Blanks around the literal (TAB..CR, space, NEL, NBSP) are dropped, one
    sign is allowed, and the digits may be grouped by single underscores.
    A literal of more than 4300 digits is refused, as the interpreter does
    by default. *)

Definition int_space (c : ascii) : bool :=
  let n := code c in
  ((9 <=? n) && (n <=? 13) || (n =? 32) || (n =? 133) || (n =? 160))%N.

Definition is_digit (c : ascii) : bool :=
  let n := code c in ((48 <=? n) && (n <=? 57))%N.

Definition digit_value (c : ascii) : Z := Z.of_N (code c) - 48.

Fixpoint int_digits (s : str) (acc : Z) (after_digit : bool) : option Z :=
  match s with
  | [] => if after_digit then Some acc else None
  | c :: s' =>
      if is_digit c then int_digits s' (10 * acc + digit_value c) true
      else if Ascii.eqb c "_" && after_digit then int_digits s' acc false
      else None
  end.

(** The cap of the interpreter on the digits of a literal,
    [sys.get_int_max_str_digits()] at its default. *)
Definition int_max_str_digits : nat := 4300.

Definition int (s : str) : option Z :=
  let literal := lstrip_with int_space (rstrip_with int_space s) in
  if (int_max_str_digits <? length (filter is_digit literal))%nat then None
  else
    match literal with
    | c :: ds =>
        if Ascii.eqb c "+" then int_digits ds 0 false
        else if Ascii.eqb c "-" then option_map Z.opp (int_digits ds 0 false)
        else int_digits (c :: ds) 0 false
    | [] => None
    end.

(** [d.get(key, default)] on a dictionary literal. *)
Fixpoint dict_get {V : Type} (d : list (str * V)) (key : str) (default : V) : V :=
  match d with
  | [] => default
  | (k, v) :: d' =>
      if list_eq_dec ascii_dec k key then v else dict_get d' key default
  end.

(** The newline character, and the literals built from it. *)
Definition NL : str := ["010"%char].

(** ** [list.sort] and [sorted]

    [list.sort(key=f)] computes the key of every item first, in list order,
    and then sorts stably by [<] on the keys; with [reverse=True] the list
    is reversed, sorted and reversed again.  A stable sort has one result
    for a given strict order on the keys, which the insertion below
    computes. *)

Section Sorting.
Context {K A : Type} (ltb : K -> K -> bool).

Fixpoint insert (x : K * A) (l : list (K * A)) : list (K * A) :=
  match l with
  | [] => [x]
  | y :: l' => if ltb (fst y) (fst x) then y :: insert x l' else x :: l
  end.

Definition stable_sort (l : list (K * A)) : list (K * A) :=
  fold_right insert [] l.

Definition sort_decorated (reverse : bool) (l : list (K * A)) : list (K * A) :=
  if reverse then rev (stable_sort (rev l)) else stable_sort l.

Definition sort_with_keys (reverse : bool) (keys : list K) (items : list A)
  : list A :=
  map snd (sort_decorated reverse (combine keys items)).

(** [x] may stand before [y]: [y < x] fails. *)
Definition in_order (x y : K * A) : Prop := ltb (fst y) (fst x) = false.

End Sorting.


(** [a < b] on strings: lexicographic by code point. *)
Fixpoint str_ltb (a b : str) : bool :=
  match a, b with
  | _, [] => false
  | [], _ :: _ => true
  | x :: a', y :: b' =>
      if (code x =? code y)%N then str_ltb a' b' else (code x <? code y)%N
  end.

(** ** Dates and times *)

(** A [datetime] is its wall-clock reading, in microseconds since
    0001-01-01T00:00:00 of its own calendar fields, and, when it is aware,
    its offset from UTC in microseconds. *)
Inductive datetime : Type :=
| Naive (wall : Z)
| Aware (wall : Z) (utcoffset : Z).

(** ** Binary64

    A finite binary64 number is kept as the integer [n] of its value
    [n * 2^-1074]: every finite binary64 number is such a multiple. *)

Definition BINARY64_SCALE : Z := 2 ^ 1074.

(** The binary64 number nearest to [n / d], for [d > 0] and a quotient
    below the overflow threshold, ties going to the even significand. *)
Definition round_binary64 (n d : Z) : Z :=
  if n =? 0 then 0
  else
    let a := Z.abs n in
    let e0 := Z.log2 a - Z.log2 d in
    let below := if 0 <=? e0 then a <? d * 2 ^ e0 else a * 2 ^ (- e0) <? d in
    let e := Z.max (if below then e0 - 1 else e0) (-1022) in
    let num := if 0 <=? 52 - e then a * 2 ^ (52 - e) else a in
    let den := if 0 <=? 52 - e then d else d * 2 ^ (e - 52) in
    let q := num / den in
    let r := num mod den in
    let q := if 2 * r <? den then q
             else if den <? 2 * r then q + 1
             else if Z.even q then q else q + 1 in
    Z.sgn n * (q * 2 ^ (e + 1022)).

(** [seconds + microsecond / 1e6], as [timestamp()] computes it for a naive
    value whose time stamp is [ts] microseconds: the quotient is rounded,
    then the sum. *)
Definition stamp_value (ts : Z) : Z :=
  let seconds := ts / 1000000 in
  let microsecond := ts mod 1000000 in
  round_binary64
    (seconds * BINARY64_SCALE + round_binary64 microsecond 1000000)
    BINARY64_SCALE.

(** A [float] holding seconds, or [float("inf")].  [Finite micros] is the
    binary64 number nearest to [micros / 10^6], which is what
    [timedelta.total_seconds()] returns for a duration of [micros]
    microseconds; [Binary64 n] is the number [n * 2^-1074]. *)
Inductive float : Type :=
| Finite (micros : Z)
| Infinity
| Binary64 (n : Z).

(** The value of a float as a multiple of 2^-1074; [None] is infinity. *)
Definition float_value (a : float) : option Z :=
  match a with
  | Finite micros => Some (round_binary64 micros 1000000)
  | Infinity => None
  | Binary64 n => Some n
  end.

Definition value_eqb (x y : option Z) : bool :=
  match x, y with
  | Some x, Some y => x =? y
  | None, None => true
  | _, _ => false
  end.

Definition value_ltb (x y : option Z) : bool :=
  match x, y with
  | Some x, Some y => x <? y
  | Some _, None => true
  | None, _ => false
  end.

(** [a == b] and [a < b] on floats. *)
Definition float_eqb (a b : float) : bool :=
  value_eqb (float_value a) (float_value b).

Definition float_ltb (a b : float) : bool :=
  value_ltb (float_value a) (float_value b).

(** The float [timestamp()] returns for a naive value whose time stamp is
    [ts] microseconds.  It is the number nearest to [ts / 10^6] except for
    some readings within hours of the epoch, where rounding twice gives a
    neighbour of it. *)
Definition stamp (ts : Z) : float :=
  if stamp_value ts =? round_binary64 ts 1000000 then Finite ts
  else Binary64 (stamp_value ts).

(** [-d.timestamp()] for such a value. *)
Definition float_neg_finite (ts : Z) : float :=
  match stamp ts with
  | Finite micros => Finite (- micros)
  | Infinity => Infinity
  | Binary64 n => Binary64 (- n)
  end.

(** The wall-clock reading of 1970-01-01T00:00:00. *)
Definition EPOCH : Z := 719162 * 86400 * 1000000.

(** [(a - b).total_seconds()]: subtracting a naive and an aware value
    raises [TypeError]. *)
Definition datetime_sub_seconds (a b : datetime) : result Z :=
  match a, b with
  | Naive x, Naive y => Ok (x - y)
  | Aware x ox, Aware y oy => Ok ((x - ox) - (y - oy))
  | _, _ => Raise TypeError
  end.

Class Runtime : Type := {
  (** [datetime.fromisoformat(s)] of the running interpreter. *)
  fromisoformat : str -> option datetime;
  (** [datetime.strptime(s, format)]. *)
  strptime : str -> str -> option datetime;
  (** [d.timestamp()] for a naive [d], through the local time zone. *)
  local_timestamp : Z -> result Z;
  (** [datetime.fromtimestamp(t)]: naive, in the local time zone. *)
  fromtimestamp : Z -> Z;
  (** [markdown.markdown(text, extensions=...)]. *)
  markdown : str -> list str -> str
}.

Section App.
Context {runtime : Runtime}.

(** [d.timestamp()], in microseconds. *)
Definition timestamp (d : datetime) : result Z :=
  match d with
  | Naive wall => local_timestamp wall
  | Aware wall utcoffset => Ok (wall - utcoffset - EPOCH)
  end.

(** [d.timestamp()], the float: a naive value adds its microseconds to its
    seconds in floating point, an aware one is [total_seconds()] of its
    distance from the epoch. *)
Definition timestamp_float (d : datetime) : result float :=
  ts <- timestamp d ;;
  match d with
  | Naive _ => Ok (stamp ts)
  | Aware _ _ => Ok (Finite ts)
  end.

(** ** The entities

    [updated_at] is always built by [datetime.fromtimestamp]: a naive value,
    kept as its wall-clock reading. *)

Record Post : Type := {
  post_slug : str;
  post_title : str;
  post_excerpt : str;
  post_content_html : str;
  published_at : option datetime;
  post_updated_at : Z
}.

Record RoadmapEntry : Type := {
  slug : str;
  title : str;
  status : str;
  status_class : str;
  deadline : option str;
  progress : option Z;
  excerpt : str;
  content_html : str;
  updated_at : Z
}.

Definition extensions : list str :=
  [lit "fenced_code"; lit "tables"; lit "sane_lists"; lit "nl2br"].

(** ** Excerpts *)

Fixpoint first_paragraph (paragraphs : list str) : str :=
  match paragraphs with
  | [] => ""
  | paragraph :: rest =>
      let clean := strip paragraph in
      if truthy clean then replace NL " " clean else first_paragraph rest
  end.

Definition _extract_excerpt (body_text : str) : str :=
  first_paragraph (split (NL ++ NL) body_text).

(** ** Posts *)

(** The title line, when the document has one. *)
Definition title_line (lines : list str) : option str :=
  match lines with
  | line0 :: _ => if startswith "# " line0 then Some line0 else None
  | [] => None
  end.

(** The lines after the title line, [lines[body_start:]]. *)
Definition document_body (lines : list str) : list str :=
  match title_line lines with
  | Some _ => skipn 1 lines
  | None => lines
  end.

(** A field line of [key]: [line.lower().startswith(key + ":")]. *)
Definition is_field (key line : str) : bool :=
  startswith (key ++ ":") (lower line).

(** The value of a field line: the text after its first colon, trimmed. *)
Definition field_value (line : str) : str :=
  match partition ":" line with
  | Some (_, after) => strip after
  | None => []
  end.

(** One turn of the loop over the lines of a post: the state is
    [(published_at, body_lines)]. *)
Definition post_line (st : option datetime * list str) (line : str)
  : result (option datetime * list str) :=
  let '(published, body_lines) := st in
  if startswith "date:" (lower line) then
    field <- index (split_max 1 ":" line) 1 ;;
    let date_value := strip field in
    if truthy date_value
    then Ok (fromisoformat date_value, body_lines)
    else Ok (published, body_lines)
  else Ok (published, body_lines ++ [line]).

Definition _parse_markdown (md_text : str)
  : result (str * str * str * option datetime) :=
  let lines := map rstrip (splitlines md_text) in
  let default : str := "Untitled" in
  let '(title, body_start) :=
    match title_line lines with
    | Some line0 =>
        let t := strip (skipn 2 line0) in
        (if truthy t then t else default, 1%nat)
    | None => (default, 0%nat)
    end in
  st <- for_each post_line (skipn body_start lines) (None, []) ;;
  let '(published, body_lines) := st in
  let body_text := strip (join NL body_lines) in
  let excerpt := _extract_excerpt body_text in
  let render_lines :=
    match title_line lines with
    | Some line0 => [line0]
    | None => []
    end ++ body_lines in
  let html := markdown (strip (join NL render_lines)) extensions in
  Ok (title, excerpt, html, published).

(** The text of a post handed to the renderer. *)
Definition post_markup (md_text : str) : str :=
  let lines := map rstrip (splitlines md_text) in
  strip (join NL
    (match title_line lines with Some line0 => [line0] | None => [] end
     ++ filter (fun line => negb (is_field "date" line)) (document_body lines))).

(** ** Roadmap entries *)

(** The loop [for parser in (...): try: return parser(deadline)
    except ValueError: continue]. *)
Fixpoint first_parse (parsers : list (str -> option datetime)) (deadline : str)
  : option datetime :=
  match parsers with
  | [] => None
  | parser :: rest =>
      match parser deadline with
      | Some dt => Some dt
      | None => first_parse rest deadline
      end
  end.

Definition _parse_deadline (deadline : option str) : option datetime :=
  match deadline with
  | None => None
  | Some deadline =>
      if truthy deadline then
        first_parse
          [fromisoformat;
           fun value => strptime value "%Y-%m-%d";
           fun value => strptime value "%Y/%m/%d"]
          deadline
      else None
  end.

Definition _status_rank (status : str) : Z :=
  dict_get [(lit "now", 0); (lit "next", 1); (lit "later", 2); (lit "done", 3)]
    (lower (strip status)) 0.

(** [datetime.now()] is read once for every entry whose deadline parses:
    [clock n] is the wall-clock reading of the [n]-th call and [tick] the
    number of calls made so far. *)
Definition _roadmap_sort_key (clock : nat -> Z) (entry : RoadmapEntry) (tick : nat)
  : result ((Z * Z * float * float) * nat) :=
  let rank := _status_rank (status entry) in
  match _parse_deadline (deadline entry) with
  | None =>
      ts <- local_timestamp (updated_at entry) ;;
      Ok ((rank, 1, Infinity, float_neg_finite ts), tick)
  | Some deadline_dt =>
      seconds <- datetime_sub_seconds deadline_dt (Naive (clock tick)) ;;
      let distance := Z.abs seconds in
      ts <- local_timestamp (updated_at entry) ;;
      Ok ((rank, 0, Finite distance, float_neg_finite ts), S tick)
  end.

Definition _homepage_sort_key (entry : RoadmapEntry) : result (Z * Z * float) :=
  let progress := match progress entry with Some p => p | None => -1 end in
  match _parse_deadline (deadline entry) with
  | None => Ok (- progress, 1, Infinity)
  | Some deadline_dt =>
      ts <- timestamp_float deadline_dt ;;
      Ok (- progress, 0, ts)
  end.

(** [<] on the key tuples: the first components that differ decide. *)
Definition key3_ltb (a b : Z * Z * float) : bool :=
  let '(a1, a2, a3) := a in
  let '(b1, b2, b3) := b in
  if negb (a1 =? b1) then a1 <? b1
  else if negb (a2 =? b2) then a2 <? b2
  else float_ltb a3 b3.

Definition key4_ltb (a b : Z * Z * float * float) : bool :=
  let '(a1, a2, a3, a4) := a in
  let '(b1, b2, b3, b4) := b in
  if negb (a1 =? b1) then a1 <? b1
  else if negb (a2 =? b2) then a2 <? b2
  else if negb (float_eqb a3 b3) then float_ltb a3 b3
  else float_ltb a4 b4.

(** The keys with each float replaced by its value, on which [<] is the
    order of the tuples component by component. *)
Definition key3_values (a : Z * Z * float) : Z * Z * option Z :=
  (fst a, float_value (snd a)).

Definition key4_values (a : Z * Z * float * float)
  : Z * Z * option Z * option Z :=
  (key3_values (fst a), float_value (snd a)).

Definition _select_homepage_entries (entries : list RoadmapEntry)
  : result (list RoadmapEntry) :=
  let candidates :=
    filter (fun entry =>
              match progress entry with
              | Some p => p <? 100
              | None => false
              end) entries in
  keys <- map_result _homepage_sort_key candidates ;;
  Ok (firstn 3 (sort_with_keys key3_ltb false keys candidates)).

(** One turn of the loop over the lines of a roadmap document: the state is
    [(status, deadline, progress, body_lines)]. *)
Definition roadmap_line (st : str * option str * option Z * list str) (line : str)
  : result (str * option str * option Z * list str) :=
  let '(status, deadline, progress, body_lines) := st in
  if startswith "status:" (lower line) then
    field <- index (split_max 1 ":" line) 1 ;;
    let status_value := strip field in
    if truthy status_value
    then Ok (status_value, deadline, progress, body_lines)
    else Ok st
  else if startswith "deadline:" (lower line) then
    field <- index (split_max 1 ":" line) 1 ;;
    let deadline_value := strip field in
    if truthy deadline_value
    then Ok (status, Some deadline_value, progress, body_lines)
    else Ok st
  else if startswith "progress:" (lower line) then
    field <- index (split_max 1 ":" line) 1 ;;
    let progress_value := rstrip_chars "%" (strip field) in
    if truthy progress_value then
      match int progress_value with
      | Some parsed =>
          if (0 <=? parsed) && (parsed <=? 100)
          then Ok (status, deadline, Some parsed, body_lines)
          else Ok st
      | None => Ok st
      end
    else Ok st
  else Ok (status, deadline, progress, body_lines ++ [line]).

Definition _parse_roadmap_entry (md_text : str)
  : result (str * str * str * option str * option Z * str) :=
  let lines := map rstrip (splitlines md_text) in
  let default : str := "Untitled" in
  let '(title, body_start) :=
    match title_line lines with
    | Some line0 =>
        let t := strip (skipn 2 line0) in
        (if truthy t then t else default, 1%nat)
    | None => (default, 0%nat)
    end in
  st <- for_each roadmap_line (skipn body_start lines) (lit "Now", None, None, []) ;;
  let '(status, deadline, progress, body_lines) := st in
  let body_text := strip (join NL body_lines) in
  let excerpt := _extract_excerpt body_text in
  let html := markdown body_text extensions in
  Ok (title, status, html, deadline, progress, excerpt).

(** A field line of a roadmap document. *)
Definition is_roadmap_field (line : str) : bool :=
  is_field "status" line || is_field "deadline" line || is_field "progress" line.

(** The text of a roadmap entry handed to the renderer. *)
Definition entry_markup (md_text : str) : str :=
  let lines := map rstrip (splitlines md_text) in
  strip (join NL
    (filter (fun line => negb (is_roadmap_field line)) (document_body lines))).

(** The fields of a parsed roadmap document and of a parsed post, one at
    a time. *)
Definition parsed_status (md_text : str) : result str :=
  parsed <- _parse_roadmap_entry md_text ;;
  let '(_, status, _, _, _, _) := parsed in Ok status.

Definition parsed_deadline (md_text : str) : result (option str) :=
  parsed <- _parse_roadmap_entry md_text ;;
  let '(_, _, _, deadline, _, _) := parsed in Ok deadline.

Definition parsed_progress (md_text : str) : result (option Z) :=
  parsed <- _parse_roadmap_entry md_text ;;
  let '(_, _, _, _, progress, _) := parsed in Ok progress.

Definition parsed_published (md_text : str) : result (option datetime) :=
  parsed <- _parse_markdown md_text ;;
  let '(_, _, _, published) := parsed in Ok published.

(** ** Loading *)

(** A file yielded by [DIR.glob("*.md")] once it has been read: its name,
    the text [read_text(encoding="utf-8")] returned and the modification
    time [stat().st_mtime], in microseconds.  The reads that may fail are
    those of a [Path], below. *)
Record md_file : Type := {
  name : str;
  read_text : str;
  st_mtime : Z
}.

(** [path.stem]: the name without its last suffix. *)
Definition stem (name : str) : str :=
  match partition "." (rev name) with
  | Some (suffix, before) =>
      if truthy before && truthy suffix then rev before else name
  | None => name
  end.

Definition sorted_paths (paths : list md_file) : list md_file :=
  sort_with_keys str_ltb false (map name paths) paths.

Definition build_post (md_path : md_file) : result Post :=
  parsed <- _parse_markdown (read_text md_path) ;;
  let '(title, excerpt, html, published) := parsed in
  Ok {| post_slug := stem (name md_path);
        post_title := title;
        post_excerpt := excerpt;
        post_content_html := html;
        published_at := published;
        post_updated_at := fromtimestamp (st_mtime md_path) |}.

Definition load_posts (glob : list md_file) : result (list Post) :=
  posts <- map_result build_post (sorted_paths glob) ;;
  Ok (sort_with_keys Z.ltb true (map post_updated_at posts) posts).

Definition status_classes : list (str * str) :=
  [(lit "now", lit "status-now"); (lit "next", lit "status-next");
   (lit "later", lit "status-later"); (lit "done", lit "status-done")].

Definition build_entry (md_path : md_file) : result RoadmapEntry :=
  parsed <- _parse_roadmap_entry (read_text md_path) ;;
  let '(title, status, html, deadline, progress, excerpt) := parsed in
  let status_key := lower (strip status) in
  let status_class := dict_get status_classes status_key "status-now" in
  Ok {| slug := stem (name md_path);
        title := title;
        status := if truthy status then status else "Now";
        status_class := status_class;
        deadline := deadline;
        progress := progress;
        excerpt := excerpt;
        content_html := html;
        updated_at := fromtimestamp (st_mtime md_path) |}.

(** The four categories, in the order of their ranks. *)
Definition known_classes : list str :=
  [lit "status-now"; lit "status-next"; lit "status-later"; lit "status-done"].

(** What holds of the category of an entry: it is the image of the status
    text, trimmed and lower-cased, under the four-way table, with
    [status-now] for any other text; it is one of the four; and it is the
    category at the rank of the status. *)
Definition known_class (entry : RoadmapEntry) : Prop :=
  status_class entry
  = dict_get status_classes (lower (strip (status entry))) "status-now"
  /\ In (status_class entry) known_classes
  /\ status_class entry
     = nth (Z.to_nat (_status_rank (status entry))) known_classes [].

(** The keys of [entries.sort(key=_roadmap_sort_key)], computed in list
    order with the clock threaded through. *)
Fixpoint roadmap_keys (clock : nat -> Z) (entries : list RoadmapEntry) (tick : nat)
  : result (list (Z * Z * float * float)) :=
  match entries with
  | [] => Ok []
  | entry :: rest =>
      kt <- _roadmap_sort_key clock entry tick ;;
      keys <- roadmap_keys clock rest (snd kt) ;;
      Ok (fst kt :: keys)
  end.

Definition load_roadmap (clock : nat -> Z) (glob : list md_file)
  : result (list RoadmapEntry) :=
  entries <- map_result build_entry (sorted_paths glob) ;;
  keys <- roadmap_keys clock entries 0 ;;
  Ok (sort_with_keys key4_ltb false keys entries).

End App.

(** ** The progress rule as the specification words it

    "Strip a trailing [%] if present, parse as integer; keep only if in
    [0,100], else absent": one [%] is removed, not every one. *)
Definition strip_one_percent (value : str) : str :=
  match rev value with
  | c :: before => if Ascii.eqb c "%" then rev before else value
  | [] => value
  end.

Definition spec_progress (value : str) : option Z :=
  match int (strip_one_percent value) with
  | Some parsed => if (0 <=? parsed) && (parsed <=? 100) then Some parsed else None
  | None => None
  end.

(** The progress rule of the code on the value of a progress line. *)
Definition code_progress (value : str) : option Z :=
  match int (rstrip_chars "%" value) with
  | Some parsed => if (0 <=? parsed) && (parsed <=? 100) then Some parsed else None
  | None => None
  end.

(** ** A reference runtime: CPython 3.11 on Linux with [TZ=UTC]

    Used to run the code on concrete documents.  The calendar is the
    proleptic Gregorian one of [datetime]; the parsers are those of the C
    implementation of [datetime] and of [_strptime]. *)

Module Reference.

Definition is_leap (y : Z) : bool :=
  (y mod 4 =? 0) && (negb (y mod 100 =? 0) || (y mod 400 =? 0)).

Definition days_before_year (y : Z) : Z :=
  let p := y - 1 in p * 365 + p / 4 - p / 100 + p / 400.

Definition days_in_month (y m : Z) : Z :=
  if m =? 2 then (if is_leap y then 29 else 28)
  else if (m =? 4) || (m =? 6) || (m =? 9) || (m =? 11) then 30
  else 31.

Fixpoint days_before_month (y : Z) (m : nat) : Z :=
  match m with
  | O => 0
  | S k => days_before_month y k + days_in_month y (Z.of_nat (S k))
  end.

Definition MICROS : Z := 1000000.
Definition DAY : Z := 86400 * MICROS.

(** The constructor [datetime(y, m, d, hh, mm, ss)], [ValueError] being
    [None]; the result is the wall-clock reading. *)
Definition make_wall (y m d hh mm ss : Z) : option Z :=
  if (1 <=? y) && (y <=? 9999) && (1 <=? m) && (m <=? 12)
     && (1 <=? d) && (d <=? days_in_month y m)
     && (0 <=? hh) && (hh <? 24) && (0 <=? mm) && (mm <? 60)
     && (0 <=? ss) && (ss <? 60)
  then Some ((days_before_year y + days_before_month y (Z.to_nat (m - 1)) + (d - 1)) * DAY
             + ((hh * 60 + mm) * 60 + ss) * MICROS)
  else None.

(** A run of decimal digits read as a number. *)
Fixpoint number (ds : str) (acc : Z) : option Z :=
  match ds with
  | [] => Some acc
  | c :: ds' => if is_digit c then number ds' (10 * acc + digit_value c) else None
  end.

(** The month of [strptime]: [1[0-2]|0[1-9]|[1-9]], the alternatives tried
    in this order and the separator [sep] required after it. *)
Definition strptime_month (sep : ascii) (s : str) : option (Z * str) :=
  match s with
  | a :: b :: c :: rest =>
      if Ascii.eqb a "1" && is_digit b && (digit_value b <=? 2) && Ascii.eqb c sep
      then Some (10 + digit_value b, rest)
      else if Ascii.eqb a "0" && is_digit b && (1 <=? digit_value b) && Ascii.eqb c sep
      then Some (digit_value b, rest)
      else if is_digit a && (1 <=? digit_value a) && Ascii.eqb b sep
      then Some (digit_value a, c :: rest)
      else None
  | [a; b] =>
      if is_digit a && (1 <=? digit_value a) && Ascii.eqb b sep
      then Some (digit_value a, [])
      else None
  | _ => None
  end.

(** The day of [strptime]: [3[01]|[12]\d|0[1-9]|[1-9]| [1-9]], the first
    alternative that matches; what follows it is left over. *)
Definition strptime_day (s : str) : option (Z * str) :=
  match s with
  | a :: rest =>
      match rest with
      | b :: rest' =>
          if Ascii.eqb a "3" && is_digit b && (digit_value b <=? 1)
          then Some (30 + digit_value b, rest')
          else if is_digit a && (1 <=? digit_value a) && (digit_value a <=? 2) && is_digit b
          then Some (10 * digit_value a + digit_value b, rest')
          else if Ascii.eqb a "0" && is_digit b && (1 <=? digit_value b)
          then Some (digit_value b, rest')
          else if is_digit a && (1 <=? digit_value a)
          then Some (digit_value a, rest)
          else if Ascii.eqb a " " && is_digit b && (1 <=? digit_value b)
          then Some (digit_value b, rest')
          else None
      | [] =>
          if is_digit a && (1 <=? digit_value a) then Some (digit_value a, [])
          else None
      end
  | [] => None
  end.

(** [datetime.strptime(s, "%Y<sep>%m<sep>%d")]: four digits, the separator,
    a month, the separator, a day, and nothing left over. *)
Definition strptime_ymd (sep : ascii) (s : str) : option datetime :=
  match s with
  | y1 :: y2 :: y3 :: y4 :: c :: rest =>
      match number [y1; y2; y3; y4] 0 with
      | Some y =>
          if Ascii.eqb c sep then
            match strptime_month sep rest with
            | Some (m, rest') =>
                match strptime_day rest' with
                | Some (d, []) => option_map Naive (make_wall y m d 0 0 0)
                | _ => None
                end
            | None => None
            end
          else None
      | None => None
      end
  | _ => None
  end.

Definition strptime (s format : str) : option datetime :=
  if list_eq_dec ascii_dec format "%Y-%m-%d" then strptime_ymd "-" s
  else if list_eq_dec ascii_dec format "%Y/%m/%d" then strptime_ymd "/" s
  else None.

(** *** [datetime.fromisoformat], as CPython 3.11 reads a string

    The parser works on the UTF-8 bytes of the string, which end with a
    NUL byte; it compares positions with the lengths it was given and
    bytes with NUL, and the two need not agree. *)

Definition utf8 (s : str) : list ascii :=
  flat_map (fun c =>
              let n := code c in
              if (n <? 128)%N then [c]
              else [ascii_of_N (192 + n / 64); ascii_of_N (128 + n mod 64)])
           s.

Definition NUL : ascii := "000"%char.

(** The byte at a position; the terminator, and NUL past it. *)
Definition byte_at (buf : list ascii) (p : nat) : ascii := nth p buf NUL.

(** [parse_digits]: exactly [n] digits from position [p]. *)
Fixpoint parse_digits (buf : list ascii) (p n : nat) (acc : Z) : option (Z * nat) :=
  match n with
  | O => Some (acc, p)
  | S n' =>
      let c := byte_at buf p in
      if is_digit c then parse_digits buf (S p) n' (10 * acc + digit_value c)
      else None
  end.

(** The first position from [idx] on, below [len], that holds no digit. *)
Fixpoint skip_digits (buf : list ascii) (fuel idx len : nat) : nat :=
  match fuel with
  | O => idx
  | S fuel' =>
      if (idx <? len)%nat && is_digit (byte_at buf idx)
      then skip_digits buf fuel' (S idx) len
      else idx
  end.

(** [_find_isoformat_datetime_separator]; [None] is its [-1]. *)
Definition find_isoformat_datetime_separator (buf : list ascii) (len : nat)
  : option nat :=
  if (len =? 7)%nat then Some 7%nat
  else if Ascii.eqb (byte_at buf 4) "-" then
    if Ascii.eqb (byte_at buf 5) "W" then
      if (len <? 8)%nat then None
      else if (8 <? len)%nat && Ascii.eqb (byte_at buf 8) "-" then
        if (len =? 9)%nat then None
        else if (10 <? len)%nat && is_digit (byte_at buf 10) then Some 8%nat
        else Some 10%nat
      else Some 8%nat
    else Some 10%nat
  else if Ascii.eqb (byte_at buf 4) "W" then
    let idx := skip_digits buf len 7 len in
    if (idx <? 9)%nat then Some idx
    else if Nat.even idx then Some 7%nat
    else Some 8%nat
  else Some 8%nat.

(** The ordinal of the Monday of the first ISO week of a year, and the
    week day of its first day (Monday is 0). *)
Definition first_weekday (y : Z) : Z := (days_before_year y + 1 + 6) mod 7.

Definition iso_week1_monday (y : Z) : Z :=
  let first_day := days_before_year y + 1 in
  let week1_monday := first_day - first_weekday y in
  if 3 <? first_weekday y then week1_monday + 7 else week1_monday.

(** [iso_to_ymd], giving the ordinal of the day. *)
Definition iso_to_ordinal (y week day : Z) : option Z :=
  if (y <? 1) || (9999 <? y) then None
  else if ((week <=? 0) || (53 <=? week))
          && negb ((week =? 53)
                   && ((first_weekday y =? 3)
                       || ((first_weekday y =? 2) && is_leap y)))
  then None
  else if (day <=? 0) || (8 <=? day) then None
  else Some (iso_week1_monday y + (week - 1) * 7 + day - 1).

(** The ordinal of a date of the calendar. *)
Definition ymd_to_ordinal (y m d : Z) : option Z :=
  if (1 <=? y) && (y <=? 9999) && (1 <=? m) && (m <=? 12)
     && (1 <=? d) && (d <=? days_in_month y m)
  then Some (days_before_year y + days_before_month y (Z.to_nat (m - 1)) + d)
  else None.

Definition MAXORDINAL : Z := 3652059.

(** [parse_isoformat_date] on the first [len] bytes: the ordinal of the
    day. *)
Definition parse_isoformat_date (buf : list ascii) (len : option nat) : option Z :=
  match parse_digits buf 0 4 0 with
  | None => None
  | Some (year, p) =>
      let uses_separator := Ascii.eqb (byte_at buf p) "-" in
      let p := if uses_separator then S p else p in
      if Ascii.eqb (byte_at buf p) "W" then
        match parse_digits buf (S p) 2 0 with
        | None => None
        | Some (iso_week, p) =>
            let more := match len with
                        | Some n => (p <? n)%nat
                        | None => true
                        end in
            if more then
              if uses_separator && negb (Ascii.eqb (byte_at buf p) "-") then None
              else
                let p := if uses_separator then S p else p in
                match parse_digits buf p 1 0 with
                | None => None
                | Some (iso_day, _) => iso_to_ordinal year iso_week iso_day
                end
            else iso_to_ordinal year iso_week 1
        end
      else
        match parse_digits buf p 2 0 with
        | None => None
        | Some (month, p) =>
            if uses_separator && negb (Ascii.eqb (byte_at buf p) "-") then None
            else
              let p := if uses_separator then S p else p in
              match parse_digits buf p 2 0 with
              | None => None
              | Some (day, _) => ymd_to_ordinal year month day
              end
        end
  end.

(** What [parse_hh_mm_ss_ff] returns: the four components and whether it
    stopped before a NUL byte. *)
Definition hms : Type := Z * Z * Z * Z * bool.

Definition correction (to_parse : nat) : Z :=
  nth (to_parse - 1) [100000; 10000; 1000; 100; 10] 1.

(** The fraction, from position [p]. *)
Definition parse_fraction (buf : list ascii) (p p_end : nat) (hh mm ss : Z)
  : option hms :=
  let len_remains := (p_end - p)%nat in
  let to_parse := Nat.min 6 len_remains in
  match parse_digits buf p to_parse 0 with
  | None => None
  | Some (us, p) =>
      let us := if (to_parse <? 6)%nat then us * correction to_parse else us in
      let p := skip_digits buf (length buf) p (S (length buf)) in
      Some (hh, mm, ss, us, negb (Ascii.eqb (byte_at buf p) NUL))
  end.

(** [parse_hh_mm_ss_ff] between the positions [p] and [p_end]: the loop
    over hour, minute and second, [i] counting the turns left. *)
Fixpoint parse_hh_mm_ss (buf : list ascii) (i : nat) (p p_end : nat)
         (has_separator : option bool) (vals : list Z) : option hms :=
  let component (k : nat) := nth k vals 0 in
  match i with
  | O => parse_fraction buf p p_end (component 0%nat) (component 1%nat) (component 2%nat)
  | S i' =>
      match parse_digits buf p 2 0 with
      | None => None
      | Some (v, p1) =>
          let vals := vals ++ [v] in
          let component (k : nat) := nth k vals 0 in
          let c := byte_at buf p1 in
          let p2 := S p1 in
          let has_sep :=
            match has_separator with
            | None => Ascii.eqb c ":"
            | Some b => b
            end in
          if (p_end <=? p2)%nat then
            Some (component 0%nat, component 1%nat, component 2%nat, 0,
                  negb (Ascii.eqb c NUL))
          else if has_sep && Ascii.eqb c ":" then
            parse_hh_mm_ss buf i' p2 p_end (Some has_sep) vals
          else if Ascii.eqb c "." || Ascii.eqb c "," then
            parse_fraction buf p2 p_end
              (component 0%nat) (component 1%nat) (component 2%nat)
          else if negb has_sep then
            parse_hh_mm_ss buf i' p1 p_end (Some has_sep) vals
          else None
      end
  end.

Definition parse_hh_mm_ss_ff (buf : list ascii) (p p_end : nat) : option hms :=
  parse_hh_mm_ss buf 3 p p_end None [].

Definition is_tz_byte (c : ascii) : bool :=
  Ascii.eqb c "Z" || Ascii.eqb c "+" || Ascii.eqb c "-".

(** The position the [do ... while] loop over the time stops at. *)
Fixpoint find_tzinfo (buf : list ascii) (fuel pos p_end : nat) : nat :=
  match fuel with
  | O => pos
  | S fuel' =>
      if is_tz_byte (byte_at buf pos) then pos
      else if (S pos <? p_end)%nat then find_tzinfo buf fuel' (S pos) p_end
      else S pos
  end.

(** [parse_isoformat_time] on the [len] bytes from [start]: the time of
    day in microseconds and, when there is one, the offset in seconds with
    its microseconds. *)
Definition parse_isoformat_time (buf : list ascii) (start len : nat)
  : option (Z * Z * Z * Z * option (Z * Z)) :=
  let p_end := (start + len)%nat in
  let tzinfo_pos := find_tzinfo buf (S len) start p_end in
  match parse_hh_mm_ss_ff buf start tzinfo_pos with
  | None => None
  | Some (hh, mm, ss, us, rest) =>
      if (tzinfo_pos =? p_end)%nat then
        if rest then None else Some (hh, mm, ss, us, None)
      else if Ascii.eqb (byte_at buf tzinfo_pos) "Z" then
        if Ascii.eqb (byte_at buf (S tzinfo_pos)) NUL
        then Some (hh, mm, ss, us, Some (0, 0))
        else None
      else
        let tzsign := if Ascii.eqb (byte_at buf tzinfo_pos) "-" then -1 else 1 in
        match parse_hh_mm_ss_ff buf (S tzinfo_pos) p_end with
        | Some (tzh, tzm, tzs, tzus, false) =>
            Some (hh, mm, ss, us,
                  Some (tzsign * (tzh * 3600 + tzm * 60 + tzs), tzsign * tzus))
        | _ => None
        end
  end.

(** The bytes the separator takes. *)
Definition separator_width (c : ascii) : nat :=
  let n := code c in
  if (n <? 128)%N then 1%nat
  else if (N.land n 240 =? 224)%N then 3%nat
  else if (N.land n 240 =? 240)%N then 4%nat
  else 2%nat.

Definition fromisoformat (s : str) : option datetime :=
  let buf := utf8 s in
  let len := length buf in
  if (len <? 7)%nat then None
  else
    let separator_location := find_isoformat_datetime_separator buf len in
    match parse_isoformat_date buf separator_location with
    | None => None
    | Some ordinal =>
        let sep := match separator_location with Some n => n | None => len end in
        let time :=
          if (sep <? len)%nat then
            let start := (sep + separator_width (byte_at buf sep))%nat in
            parse_isoformat_time buf start (len - start)
          else Some (0, 0, 0, 0, None) in
        match time with
        | None => None
        | Some (hh, mm, ss, us, tz) =>
            if (1 <=? ordinal) && (ordinal <=? MAXORDINAL)
               && (0 <=? hh) && (hh <? 24) && (0 <=? mm) && (mm <? 60)
               && (0 <=? ss) && (ss <? 60) && (0 <=? us) && (us <? MICROS)
            then
              let wall := (ordinal - 1) * DAY + ((hh * 60 + mm) * 60 + ss) * MICROS + us in
              match tz with
              | None => Some (Naive wall)
              | Some (tzoffset, tzus) =>
                  if tzoffset =? 0 then Some (Aware wall 0)
                  else
                    let off := tzoffset * MICROS + tzus in
                    if (- DAY <? off) && (off <? DAY) then Some (Aware wall off)
                    else None
              end
            else None
        end
    end.

(** [d.timestamp()] for a naive [d] under UTC.  The conversion looks one
    day back for a repeated wall-clock time, and that day must lie in year
    1 or later: on the first day of year 1 it raises [ValueError]. *)
Definition local_timestamp (wall : Z) : result Z :=
  if wall <? DAY then Raise ValueError else Ok (wall - EPOCH).

Definition fromtimestamp (t : Z) : Z := t + EPOCH.

(** The renderer is left as the identity: no evaluation below looks at the
    markup. *)
Definition markdown (text : str) (extensions : list str) : str := text.

End Reference.

Definition cpython_utc : Runtime := {|
  fromisoformat := Reference.fromisoformat;
  strptime := Reference.strptime;
  local_timestamp := Reference.local_timestamp;
  fromtimestamp := Reference.fromtimestamp;
  markdown := Reference.markdown
|}.

(** ** Lexicographic orders

    [<] on a pair: the first components decide when they differ, the second
    ones otherwise.  The orders on the key tuples are built this way. *)
Definition lex {A B : Type} (eqA ltA : A -> A -> bool) (ltB : B -> B -> bool)
           (x y : A * B) : bool :=
  if negb (eqA (fst x) (fst y)) then ltA (fst x) (fst y) else ltB (snd x) (snd y).

Definition pair_eqb {A B : Type} (eqA : A -> A -> bool) (eqB : B -> B -> bool)
           (x y : A * B) : bool :=
  eqA (fst x) (fst y) && eqB (snd x) (snd y).

(** [<] on the first two components of the sort keys. *)
Definition key2_ltb : Z * Z -> Z * Z -> bool := lex Z.eqb Z.ltb Z.ltb.

(** ** Sample directories and entries *)

Definition two_statuses : list md_file :=
  [ {| name := "b.md"; read_text := "status: DONE"; st_mtime := 0 |};
    {| name := "a.md"; read_text := "status: Someday"; st_mtime := 5 |} ].

(** An entry whose deadline no format reads; its file was last modified
    one day after the epoch. *)
Definition vague_entry : RoadmapEntry :=
  {| slug := "vague"; title := "Untitled"; status := "Now";
     status_class := "status-now"; deadline := Some (lit "soon");
     progress := Some 50; excerpt := []; content_html := [];
     updated_at := EPOCH + 86400000000 |}.

(** A roadmap directory whose one document has a deadline on the first day
    of year 1, and the entry it builds under the reference runtime. *)
Definition year_one_plan : list md_file :=
  [ {| name := "plan.md";
       read_text := "progress: 50" ++ NL ++ "deadline: 0001-01-01";
       st_mtime := 1700000000000000 |} ].

Definition year_one_entry : RoadmapEntry :=
  {| slug := "plan"; title := "Untitled"; status := "Now";
     status_class := "status-now"; deadline := Some (lit "0001-01-01");
     progress := Some 50; excerpt := []; content_html := [];
     updated_at := EPOCH + 1700000000000000 |}.

(** A roadmap directory whose one document has an ISO-8601 deadline with a
    UTC offset. *)
Definition offset_plan : list md_file :=
  [ {| name := "plan.md";
       read_text := "deadline: 2030-01-01T00:00:00+00:00";
       st_mtime := 1700000000000000 |} ].

(** ** Views of a parsed document *)

Section Views.
Context {runtime : Runtime}.

Definition parsed_title (md_text : str) : result str :=
  parsed <- _parse_markdown md_text ;;
  let '(title, _, _, _) := parsed in Ok title.

Definition parsed_entry_title (md_text : str) : result str :=
  parsed <- _parse_roadmap_entry md_text ;;
  let '(title, _, _, _, _, _) := parsed in Ok title.

Definition parsed_excerpt (md_text : str) : result str :=
  parsed <- _parse_markdown md_text ;;
  let '(_, excerpt, _, _) := parsed in Ok excerpt.

End Views.

(** The value of the last line of [lines] that is a field line of [key]
    with a value that is not empty. *)
Definition last_field (key : str) (lines : list str) : option str :=
  option_map field_value
    (find (fun line => is_field key line && truthy (field_value line))
          (rev lines)).

(** The progress read from the last progress line of [lines] whose value
    is an integer in [0,100]. *)
Definition last_progress (lines : list str) : option Z :=
  match
    find (fun line =>
            is_field "progress" line
            && match code_progress (field_value line) with
               | Some _ => true
               | None => false
               end)
         (rev lines)
  with
  | Some line => code_progress (field_value line)
  | None => None
  end.


(** ** Ranking, read off the keys *)

(** The entries the homepage may show: a progress below 100. *)
Definition candidate (entry : RoadmapEntry) : bool :=
  match progress entry with
  | Some p => p <? 100
  | None => false
  end.

(** The progress the homepage ranks by. *)
Definition shown_progress (entry : RoadmapEntry) : Z :=
  match progress entry with
  | Some p => p
  | None => -1
  end.

Section Ranking.
Context {runtime : Runtime}.

(** The deadline of the entry is read by one of the formats. *)
Definition dated (entry : RoadmapEntry) : bool :=
  match _parse_deadline (deadline entry) with
  | Some _ => true
  | None => false
  end.

(** The roadmap key of the entry can be computed: its deadline, when it
    is read, carries no UTC offset, and [updated_at] has a timestamp. *)
Definition sortable (entry : RoadmapEntry) : Prop :=
  (exists ts, local_timestamp (updated_at entry) = Ok ts)
  /\ forall wall utcoffset,
       _parse_deadline (deadline entry) <> Some (Aware wall utcoffset).

(** The homepage key of the entry can be computed: its deadline, when it
    is read, has a timestamp. *)
Definition presentable (entry : RoadmapEntry) : Prop :=
  forall deadline_dt,
    _parse_deadline (deadline entry) = Some deadline_dt ->
    exists ts, timestamp deadline_dt = Ok ts.

End Ranking.

(** ** The pages

    What a handler answers: the template it renders with the values handed
    to it.  [abort(404)] raises [NotFound], which the framework turns into
    the 404 response. *)

Inductive page : Type :=
| index_html (posts : list Post) (roadmap_entries : list RoadmapEntry)
| venting_list_html (posts : list Post)
| venting_post_html (post : Post)
| roadmap_list_html (entries : list RoadmapEntry)
| roadmap_post_html (entry : RoadmapEntry).

(** [a == b] on strings. *)
Definition str_eqb (a b : str) : bool :=
  if list_eq_dec ascii_dec a b then true else false.

(** The handlers on files already read: [blogs] and [roadmap] are the
    files of the two directories as the request found them.  The handlers
    with their reads are those of [IO] below. *)
Module Routes.
Section Handlers.
Context {runtime : Runtime}.

Definition index (clock : nat -> Z) (blogs roadmap : list md_file) : result page :=
  posts <- load_posts blogs ;;
  roadmap_entries <- load_roadmap clock roadmap ;;
  selected <- _select_homepage_entries roadmap_entries ;;
  Ok (index_html (firstn 3 posts) selected).

Definition venting_list (blogs : list md_file) : result page :=
  posts <- load_posts blogs ;;
  Ok (venting_list_html posts).

Definition venting_post (blogs : list md_file) (slug : str) : result page :=
  posts <- load_posts blogs ;;
  match find (fun post => str_eqb (post_slug post) slug) posts with
  | Some post => Ok (venting_post_html post)
  | None => Raise NotFound
  end.

Definition roadmap_list (clock : nat -> Z) (roadmap : list md_file) : result page :=
  entries <- load_roadmap clock roadmap ;;
  Ok (roadmap_list_html entries).

Definition roadmap_post (clock : nat -> Z) (roadmap : list md_file) (slug0 : str)
  : result page :=
  entries <- load_roadmap clock roadmap ;;
  match find (fun entry => str_eqb (slug entry) slug0) entries with
  | Some entry => Ok (roadmap_post_html entry)
  | None => Raise NotFound
  end.

End Handlers.
End Routes.

(** A file name as [glob("*.md")] yields it, with a base that is not
    empty. *)
Definition md_name (file_name : str) : Prop :=
  exists base, base <> [] /\ file_name = base ++ ".md".

(** ** Reading the directories

    The loaders of the sections above take the files as they were read.  In
    the program the reads are effects that may raise: [mkdir] and [glob] on
    the directory, then [read_text] and [stat] on every path, in the order
    of the loop.  A [directory] and its [Path]s hold the outcome of each of
    these calls at the time of the request; [abort(404)] raises
    [NotFound]. *)

Record Path : Type := {
  (** [md_path.name]. *)
  path_name : str;
  (** [md_path.read_text(encoding="utf-8")]. *)
  path_read_text : result str;
  (** [md_path.stat().st_mtime]. *)
  path_st_mtime : result Z
}.

Record directory : Type := {
  (** [DIR.mkdir(exist_ok=True)]. *)
  mkdir : result unit;
  (** [DIR.glob("*.md")], run to its end by [sorted]. *)
  glob : result (list Path)
}.


Module IO.
Section Loaders.
Context {runtime : Runtime}.

Definition sorted_paths (paths : list Path) : list Path :=
  sort_with_keys str_ltb false (map path_name paths) paths.

(** One turn of the loop of [load_posts]. *)
Definition build_post (md_path : Path) : result Post :=
  md_text <- path_read_text md_path ;;
  parsed <- _parse_markdown md_text ;;
  let '(title, excerpt, html, published) := parsed in
  mtime <- path_st_mtime md_path ;;
  Ok {| post_slug := stem (path_name md_path);
        post_title := title;
        post_excerpt := excerpt;
        post_content_html := html;
        published_at := published;
        post_updated_at := fromtimestamp mtime |}.

Definition load_posts (BLOG_DIR : directory) : result (list Post) :=
  _ <- mkdir BLOG_DIR ;;
  paths <- glob BLOG_DIR ;;
  posts <- map_result build_post (sorted_paths paths) ;;
  Ok (sort_with_keys Z.ltb true (map post_updated_at posts) posts).

(** One turn of the loop of [load_roadmap]. *)
Definition build_entry (md_path : Path) : result RoadmapEntry :=
  md_text <- path_read_text md_path ;;
  parsed <- _parse_roadmap_entry md_text ;;
  let '(title, status, html, deadline, progress, excerpt) := parsed in
  let status_key := lower (strip status) in
  let status_class := dict_get status_classes status_key "status-now" in
  mtime <- path_st_mtime md_path ;;
  Ok {| slug := stem (path_name md_path);
        title := title;
        status := if truthy status then status else "Now";
        status_class := status_class;
        deadline := deadline;
        progress := progress;
        excerpt := excerpt;
        content_html := html;
        updated_at := fromtimestamp mtime |}.

Definition load_roadmap (clock : nat -> Z) (ROADMAP_DIR : directory)
  : result (list RoadmapEntry) :=
  _ <- mkdir ROADMAP_DIR ;;
  paths <- glob ROADMAP_DIR ;;
  entries <- map_result build_entry (sorted_paths paths) ;;
  keys <- roadmap_keys clock entries 0 ;;
  Ok (sort_with_keys key4_ltb false keys entries).

Definition index (clock : nat -> Z) (BLOG_DIR ROADMAP_DIR : directory)
  : result page :=
  posts <- load_posts BLOG_DIR ;;
  roadmap_entries <- load_roadmap clock ROADMAP_DIR ;;
  selected <- _select_homepage_entries roadmap_entries ;;
  Ok (index_html (firstn 3 posts) selected).

Definition venting_list (BLOG_DIR : directory) : result page :=
  posts <- load_posts BLOG_DIR ;;
  Ok (venting_list_html posts).

Definition venting_post (BLOG_DIR : directory) (slug : str) : result page :=
  posts <- load_posts BLOG_DIR ;;
  match find (fun post => str_eqb (post_slug post) slug) posts with
  | Some post => Ok (venting_post_html post)
  | None => Raise NotFound
  end.

Definition roadmap_list (clock : nat -> Z) (ROADMAP_DIR : directory) : result page :=
  entries <- load_roadmap clock ROADMAP_DIR ;;
  Ok (roadmap_list_html entries).

Definition roadmap_post (clock : nat -> Z) (ROADMAP_DIR : directory) (slug0 : str)
  : result page :=
  entries <- load_roadmap clock ROADMAP_DIR ;;
  match find (fun entry => str_eqb (slug entry) slug0) entries with
  | Some entry => Ok (roadmap_post_html entry)
  | None => Raise NotFound
  end.

End Loaders.
End IO.

(** A blog directory of two posts, and one whose second file cannot be
    decoded. *)
Definition two_paths : list Path :=
  [ {| path_name := "hello.md"; path_read_text := Ok ("# Hello" ++ NL ++ "First.");
       path_st_mtime := Ok 10 |};
    {| path_name := "notes.v2.md"; path_read_text := Ok (lit "Second.");
       path_st_mtime := Ok 20 |} ].

Definition blog_directory : directory :=
  {| mkdir := Ok tt; glob := Ok two_paths |}.

Definition undecodable_directory : directory :=
  {| mkdir := Ok tt;
     glob := Ok [ {| path_name := "hello.md";
                     path_read_text := Ok ("# Hello" ++ NL ++ "First.");
                     path_st_mtime := Ok 10 |};
                  {| path_name := "latin.md"; path_read_text := Raise UnicodeDecodeError;
                     path_st_mtime := Ok 20 |} ] |}.

(** ** Requests and their metrics *)

(** What the code reads of a request: [headers name] is
    [request.headers.get(name)], [url_rule] the rule text of the matched
    route. *)
Record request : Type := {
  headers : str -> option str;
  remote_addr : option str;
  endpoint : option str;
  path : str;
  url_rule : option str;
  method : str
}.

(** [value if value is not None else default], as [get(key, default)]. *)
Definition get_or (value : option str) (default : str) : str :=
  match value with
  | Some s => s
  | None => default
  end.

(** The truth value of a string that may be [None]. *)
Definition truthy_option (value : option str) : bool :=
  match value with
  | Some s => truthy s
  | None => false
  end.

(** [a or b]. *)
Definition or_else (a b : option str) : option str :=
  if truthy_option a then a else b.

Definition _get_client_ip (r : request) : result str :=
  let forwarded_for := get_or (headers r "X-Forwarded-For") "" in
  if truthy forwarded_for then
    first <- index (split "," forwarded_for) 0 ;;
    Ok (strip first)
  else
    let real_ip := headers r "X-Real-IP" in
    if truthy_option real_ip then Ok (strip (get_or real_ip ""))
    else Ok (get_or (or_else (remote_addr r) (Some (lit "unknown"))) "unknown").

(** [LOG_IPS], from the environment of the process. *)
Definition LOG_IPS (environ : str -> option str) : bool :=
  str_eqb (lower (get_or (environ "LOG_IPS") "true")) "true".

(** [str(n)] for an integer. *)
Definition str_of_int (n : Z) : str :=
  String.list_ascii_of_string (DecimalString.NilZero.string_of_int (Z.to_int n)).

(** *** [json.dumps] of a dictionary of strings and integers

    With [ensure_ascii], the default, a string is written between quotes
    with the quote, the backslash and the characters outside space..tilde
    escaped. *)

Inductive json_value : Type :=
| json_str (s : str)
| json_int (n : Z).

Definition hex_digit (n : N) : ascii :=
  nth (N.to_nat n) (lit "0123456789abcdef") "0"%char.

Definition json_char (c : ascii) : str :=
  let n := code c in
  if (n =? 34)%N then ["092"%char; c]
  else if (n =? 92)%N then ["092"%char; c]
  else if (n =? 10)%N then "\n"
  else if (n =? 13)%N then "\r"
  else if (n =? 9)%N then "\t"
  else if (n =? 8)%N then "\b"
  else if (n =? 12)%N then "\f"
  else if ((32 <=? n) && (n <=? 126))%N then [c]
  else "\u00" ++ [hex_digit (n / 16); hex_digit (n mod 16)].

Definition json_string (s : str) : str :=
  ["034"%char] ++ concat (map json_char s) ++ ["034"%char].

Definition json_item (item : str * json_value) : str :=
  json_string (fst item) ++ ":" ++
  match snd item with
  | json_str s => json_string s
  | json_int n => str_of_int n
  end.

(** [json.dumps(d, separators=(",", ":"))]. *)
Definition json_dumps (d : list (str * json_value)) : str :=
  "{" ++ join "," (map json_item d) ++ "}".

(** *** The counter and the access log

    [REQUEST_COUNT] holds one child for every label tuple used so far;
    [labels(...).inc()] makes the child when it is missing and adds one to
    it.  The access log is the list of the messages handed to the logger,
    oldest first. *)

Definition label_values : Type := str * str * str * str.

Definition label_values_eqb (a b : label_values) : bool :=
  let '(a1, a2, a3, a4) := a in
  let '(b1, b2, b3, b4) := b in
  str_eqb a1 b1 && str_eqb a2 b2 && str_eqb a3 b3 && str_eqb a4 b4.

Fixpoint inc (key : label_values) (children : list (label_values * Z))
  : list (label_values * Z) :=
  match children with
  | [] => [(key, 1)]
  | (k, v) :: rest =>
      if label_values_eqb k key then (k, v + 1) :: rest
      else (k, v) :: inc key rest
  end.

(** The value of a child; 0 when it was never made. *)
Fixpoint count_of (key : label_values) (children : list (label_values * Z)) : Z :=
  match children with
  | [] => 0
  | (k, v) :: rest =>
      if label_values_eqb k key then v else count_of key rest
  end.

Record telemetry : Type := {
  REQUEST_COUNT : list (label_values * Z);
  access_log : list str
}.

(** [request.endpoint == name]. *)
Definition is_endpoint (r : request) (name : str) : bool :=
  match endpoint r with
  | Some e => str_eqb e name
  | None => false
  end.

(** The labels of the request and the country it is counted under. *)
Definition request_endpoint (r : request) : str :=
  match url_rule r with
  | Some rule => rule
  | None => "not_found"
  end.

Definition request_country (r : request) : str :=
  let country := or_else (headers r "CF-IPCountry") (headers r "X-Geo-Country") in
  if negb (truthy_option country) then "unknown" else get_or country "".

(** [record_request_metrics(response)]: [log_ips] is [LOG_IPS], [utcnow]
    the text of [datetime.utcnow().isoformat(timespec="seconds")] at the
    call and [status_code] that of the response, which is returned as it
    came. *)
Definition record_request_metrics (log_ips : bool) (utcnow : str) (r : request)
           (status_code : Z) (state : telemetry) : result telemetry :=
  if is_endpoint r "metrics" || startswith "/static/" (path r)
  then Ok state
  else
    let endpoint := request_endpoint r in
    let country := request_country r in
    let counted :=
      inc (method r, endpoint, str_of_int status_code, country)
          (REQUEST_COUNT state) in
    if log_ips then
      ip <- _get_client_ip r ;;
      let payload :=
        [ (lit "timestamp", json_str (utcnow ++ "Z"));
          (lit "ip", json_str ip);
          (lit "method", json_str (method r));
          (lit "path", json_str (path r));
          (lit "endpoint", json_str endpoint);
          (lit "status", json_int status_code);
          (lit "country", json_str country);
          (lit "user_agent", json_str (get_or (headers r "User-Agent") "")) ] in
      Ok {| REQUEST_COUNT := counted;
            access_log := access_log state ++ [json_dumps payload] |}
    else Ok {| REQUEST_COUNT := counted; access_log := access_log state |}.

(** Entries for the homepage: two at 80, one of them without a deadline,
    one finished, one without progress, one at 20 and one at 50. *)
Definition sample_entry (name : str) (deadline : option str) (progress : option Z)
  : RoadmapEntry :=
  {| slug := name; title := name; status := "Now"; status_class := "status-now";
     deadline := deadline; progress := progress; excerpt := []; content_html := [];
     updated_at := EPOCH |}.

Definition homepage_entries : list RoadmapEntry :=
  [ sample_entry "open" None (Some 80);
    sample_entry "finished" (Some (lit "2030-01-01")) (Some 100);
    sample_entry "unmeasured" (Some (lit "2030-01-01")) None;
    sample_entry "started" (Some (lit "2031/06/01")) (Some 20);
    sample_entry "halfway" (Some (lit "soon")) (Some 50);
    sample_entry "dated" (Some (lit "2030-01-01")) (Some 80) ].

(** A roadmap directory with a finished plan, two current ones, one of them
    with a deadline, and a later one. *)
Definition four_plans : list md_file :=
  [ {| name := "a.md"; read_text := "# A" ++ NL ++ "status: Done";
       st_mtime := 1700000000000000 |};
    {| name := "b.md"; read_text := "# B" ++ NL ++ "status: Now";
       st_mtime := 1700000000000000 |};
    {| name := "c.md"; read_text := "# C" ++ NL ++ "status: later" ++ NL ++ "deadline: 2030-01-01";
       st_mtime := 1700000000000000 |};
    {| name := "d.md"; read_text := "# D" ++ NL ++ "deadline: 2031-01-01T12:00:00";
       st_mtime := 1700000000000000 |} ].

(** A blog directory of two posts. *)
Definition two_posts : list md_file :=
  [ {| name := "hello.md"; read_text := "# Hello" ++ NL ++ "First."; st_mtime := 10 |};
    {| name := "notes.v2.md"; read_text := "Second."; st_mtime := 20 |} ].

(** A character between space and tilde. *)
Definition printable (c : ascii) : bool :=
  let n := code c in ((32 <=? n) && (n <=? 126))%N.

Section EntryViews.
Context {runtime : Runtime}.

Definition parsed_entry_excerpt (md_text : str) : result str :=
  parsed <- _parse_roadmap_entry md_text ;;
  let '(_, _, _, _, _, excerpt) := parsed in Ok excerpt.

(** [content_html] of a post and of a roadmap entry. *)
Definition parsed_html (md_text : str) : result str :=
  parsed <- _parse_markdown md_text ;;
  let '(_, _, html, _) := parsed in Ok html.

Definition parsed_entry_html (md_text : str) : result str :=
  parsed <- _parse_roadmap_entry md_text ;;
  let '(_, _, html, _, _, _) := parsed in Ok html.

End EntryViews.

(** A document with a title line, a date line and a body, and one with
    repeated field lines. *)
Definition titled_document : str :=
  "# Title  " ++ NL ++ "date: 2024-01-01" ++ NL ++ "status: Next" ++ NL ++ "body".

(** * Properties *)

(** ** The error monad *)

Lemma bind_ok {A B : Type} (m : result A) (k : A -> result B) (b : B) :
  bind m k = Ok b -> exists a, m = Ok a /\ k a = Ok b.
Proof.
  destruct m as [a|e]; simpl; intros H; [eauto | discriminate].
Qed.


Lemma map_result_length {A B : Type} (f : A -> result B) (l : list A) (out : list B) :
  map_result f l = Ok out -> length out = length l.
Proof.
  revert out; induction l as [|x l IH]; simpl; intros out H.
  - injection H as <-; reflexivity.
  - apply bind_ok in H as (y & _ & H).
    apply bind_ok in H as (ys & Hys & H).
    injection H as <-; simpl; f_equal; auto.
Qed.

Lemma map_result_Forall2 {A B : Type} (f : A -> result B) (l : list A) (out : list B) :
  map_result f l = Ok out -> Forall2 (fun x y => f x = Ok y) l out.
Proof.
  revert out; induction l as [|x l IH]; simpl; intros out H.
  - injection H as <-; constructor.
  - apply bind_ok in H as (y & Hy & H).
    apply bind_ok in H as (ys & Hys & H).
    injection H as <-; constructor; auto.
Qed.

(** ** Stable sorting *)

Section SortingFacts.
Context {K A : Type} (ltb : K -> K -> bool).

Lemma insert_perm (x : K * A) (l : list (K * A)) :
  Permutation (insert ltb x l) (x :: l).
Proof.
  induction l as [|y l IH]; simpl; [reflexivity|].
  destruct (ltb (fst y) (fst x)); [|reflexivity].
  rewrite IH; apply perm_swap.
Qed.

Lemma stable_sort_perm (l : list (K * A)) : Permutation (stable_sort ltb l) l.
Proof.
  induction l as [|x l IH]; simpl; [reflexivity|].
  rewrite insert_perm; now constructor.
Qed.

Lemma sort_decorated_perm (reverse : bool) (l : list (K * A)) :
  Permutation (sort_decorated ltb reverse l) l.
Proof.
  unfold sort_decorated; destruct reverse.
  - rewrite <- Permutation_rev, stable_sort_perm, <- Permutation_rev; reflexivity.
  - apply stable_sort_perm.
Qed.

Hypothesis ltb_asym : forall a b, ltb a b = true -> ltb b a = false.
Hypothesis ltb_ntrans :
  forall a b c, ltb a b = false -> ltb b c = false -> ltb a c = false.

Lemma in_order_trans (x y z : K * A) :
  in_order ltb x y -> in_order ltb y z -> in_order ltb x z.
Proof. unfold in_order; intros Hxy Hyz; eapply ltb_ntrans; eauto. Qed.

Lemma insert_sorted (x : K * A) (l : list (K * A)) :
  StronglySorted (in_order ltb) l -> StronglySorted (in_order ltb) (insert ltb x l).
Proof.
  induction 1 as [|y l Hl IH Hy]; simpl.
  - repeat constructor.
  - destruct (ltb (fst y) (fst x)) eqn:E.
    + constructor; [exact IH|].
      eapply Permutation_Forall; [symmetry; apply insert_perm|].
      constructor; [|exact Hy].
      unfold in_order; auto.
    + constructor; [constructor; assumption|].
      constructor; [exact E|].
      eapply Forall_impl; [|exact Hy].
      intros z Hz; eapply in_order_trans; [exact E | exact Hz].
Qed.

Lemma stable_sort_sorted (l : list (K * A)) :
  StronglySorted (in_order ltb) (stable_sort ltb l).
Proof.
  induction l as [|x l IH]; simpl; [constructor | now apply insert_sorted].
Qed.





Lemma StronglySorted_app_inv {X : Type} (R : X -> X -> Prop) (l1 l2 : list X) :
  StronglySorted R (l1 ++ l2) ->
  StronglySorted R l1 /\ StronglySorted R l2
  /\ forall x y, In x l1 -> In y l2 -> R x y.
Proof.
  induction l1 as [|a l1 IH]; simpl; intros H.
  - repeat split; [constructor | assumption | contradiction].
  - inversion H as [|? ? Hs Hf]; subst.
    destruct (IH Hs) as (H1 & H2 & H12).
    rewrite Forall_app in Hf; destruct Hf as [Hf1 Hf2].
    repeat split; [constructor; assumption | assumption |].
    intros x y [<-|Hx] Hy; [|now apply H12].
    rewrite Forall_forall in Hf2; now apply Hf2.
Qed.

Lemma StronglySorted_app {X : Type} (R : X -> X -> Prop) (l1 l2 : list X) :
  StronglySorted R l1 -> StronglySorted R l2 ->
  (forall x y, In x l1 -> In y l2 -> R x y) ->
  StronglySorted R (l1 ++ l2).
Proof.
  induction 1 as [|a l1 Hs IH Hf]; simpl; intros H2 H12; [assumption|].
  constructor.
  - apply IH; [assumption | intros x y Hx Hy; apply H12; [now right | assumption]].
  - rewrite Forall_app; split; [assumption|].
    rewrite Forall_forall; intros y Hy; apply H12; [now left | assumption].
Qed.

Lemma StronglySorted_rev {X : Type} (R : X -> X -> Prop) (l : list X) :
  StronglySorted R l -> StronglySorted (fun x y => R y x) (rev l).
Proof.
  induction 1 as [|a l Hs IH Hf]; simpl; [constructor|].
  apply StronglySorted_app; [assumption | repeat constructor |].
  intros x y Hx [<-|[]].
  rewrite Forall_forall in Hf; apply Hf; now apply in_rev.
Qed.

(** With [reverse=True] the keys descend. *)
Lemma sort_decorated_sorted (reverse : bool) (l : list (K * A)) :
  StronglySorted (fun x y => if reverse then in_order ltb y x else in_order ltb x y)
    (sort_decorated ltb reverse l).
Proof.
  unfold sort_decorated; destruct reverse.
  - apply StronglySorted_rev, stable_sort_sorted.
  - apply stable_sort_sorted.
Qed.
End SortingFacts.

(** ** Strings *)

Lemma startswith_app (prefix s : str) :
  startswith prefix s = true <-> exists rest, s = prefix ++ rest.
Proof.
  revert s; induction prefix as [|a prefix IH]; intros s; simpl.
  - split; [intros _; now exists s | reflexivity].
  - destruct s as [|b s].
    + split; [discriminate | intros [rest H]; discriminate].
    + rewrite andb_true_iff, Ascii.eqb_eq, IH.
      split.
      * intros [-> [rest ->]]; now exists rest.
      * intros [rest H]; injection H as -> ->; split; [reflexivity | now exists rest].
Qed.

Lemma partition_some (sep s before after : str) :
  partition sep s = Some (before, after) -> s = before ++ sep ++ after.
Proof.
  revert before; induction s as [|c s IH]; intros before; simpl.
  - destruct (startswith sep []) eqn:E; [|discriminate].
    intros H; injection H as <- <-.
    apply startswith_app in E as [rest E].
    destruct sep; [reflexivity | discriminate].
  - destruct (startswith sep (c :: s)) eqn:E.
    + intros H; injection H as <- <-.
      apply startswith_app in E as [rest E]; rewrite E at 1.
      simpl; f_equal.
      rewrite E, skipn_app, skipn_all, Nat.sub_diag; reflexivity.
    + destruct (partition sep s) as [[b a]|]; [|discriminate].
      intros H; injection H as <- <-.
      simpl; f_equal; now apply IH.
Qed.

Lemma split_max_not_nil (n : nat) (sep s : str) : split_max n sep s <> [].
Proof.
  destruct n; simpl; [discriminate|].
  destruct (partition sep s) as [[b a]|]; discriminate.
Qed.

Lemma split_max_Forall (P : ascii -> Prop) (n : nat) (sep s : str) :
  Forall P s -> Forall (Forall P) (split_max n sep s).
Proof.
  revert s; induction n as [|n IH]; intros s Hs; simpl.
  - repeat constructor; assumption.
  - destruct (partition sep s) as [[b a]|] eqn:E.
    + apply partition_some in E; subst s.
      rewrite !Forall_app in Hs; destruct Hs as (Hb & _ & Ha).
      constructor; auto.
    + repeat constructor; assumption.
Qed.

(** The bound of [split] is never reached: more cuts change nothing. *)
Lemma split_max_enough (sep s : str) (n : nat) :
  sep <> [] -> (length s <= n)%nat -> split_max n sep s = split sep s.
Proof.
  intros Hsep; unfold split.
  remember (length s) as m eqn:Hm.
  assert (Hle : (length s <= m)%nat) by lia; clear Hm.
  revert s n Hle; induction m as [|m IH]; intros s n Hle Hn.
  - destruct s; [|simpl in Hle; lia].
    destruct n; simpl; [reflexivity|].
    destruct (startswith sep []) eqn:E; [|reflexivity].
    apply startswith_app in E as [rest E]; destruct sep; [contradiction | discriminate].
  - destruct n as [|n]; [lia|]; simpl.
    destruct (partition sep s) as [[b a]|] eqn:E; [|reflexivity].
    f_equal.
    apply partition_some in E.
    assert (length a <= m)%nat.
    { subst s; rewrite !length_app in Hle.
      destruct sep; [contradiction | simpl in Hle; lia]. }
    rewrite (IH a n) by lia.
    symmetry; apply (IH a m); lia.
Qed.

Lemma join_cons (sep x : str) (items : list str) :
  items <> [] -> join sep (x :: items) = x ++ sep ++ join sep items.
Proof. destruct items; [contradiction | reflexivity]. Qed.

Lemma partition_char_none (c : ascii) (s : str) :
  partition [c] s = None -> ~ In c s.
Proof.
  induction s as [|x s IH]; simpl; [tauto|].
  rewrite andb_true_r.
  destruct (Ascii.eqb c x) eqn:E; [discriminate|].
  destruct (partition [c] s) as [[b a]|]; [discriminate|].
  intros _ [H|H]; [subst; rewrite Ascii.eqb_refl in E; discriminate | now apply IH].
Qed.

Lemma partition_char_before (c : ascii) (s before after : str) :
  partition [c] s = Some (before, after) -> ~ In c before.
Proof.
  revert before; induction s as [|x s IH]; intros before; simpl; [discriminate|].
  rewrite andb_true_r.
  destruct (Ascii.eqb c x) eqn:E.
  - intros H; injection H as <- <-; tauto.
  - destruct (partition [c] s) as [[b a]|]; [|discriminate].
    intros H; injection H as <- <-.
    intros [H|H]; [subst; rewrite Ascii.eqb_refl in E; discriminate|].
    now apply (IH b).
Qed.

Lemma swap_char_id (c d : ascii) (s : str) :
  ~ In c s -> map (swap_char c d) s = s.
Proof.
  induction s as [|x s IH]; simpl; intros H; [reflexivity|].
  unfold swap_char at 1.
  destruct (Ascii.eqb_spec x c) as [->|_]; [tauto|].
  f_equal; tauto.
Qed.

(** Replacing one character by another acts character by character. *)
Lemma replace_char (c d : ascii) (s : str) :
  replace [c] [d] s = map (swap_char c d) s.
Proof.
  unfold replace, split.
  remember (length s) as n eqn:Hn.
  assert (Hle : (length s <= n)%nat) by lia; clear Hn.
  revert s Hle; induction n as [|n IH]; intros s Hle; simpl.
  - destruct s; [reflexivity | simpl in Hle; lia].
  - destruct (partition [c] s) as [[b a]|] eqn:E.
    + pose proof (partition_char_before _ _ _ _ E) as Hb.
      apply partition_some in E; subst s.
      rewrite join_cons by apply split_max_not_nil.
      rewrite IH by (rewrite !length_app in Hle; simpl in Hle; lia).
      rewrite map_app, (swap_char_id c d b Hb).
      f_equal; simpl; f_equal.
      unfold swap_char; now rewrite Ascii.eqb_refl.
    + simpl; symmetry; apply swap_char_id; now apply partition_char_none.
Qed.

Lemma lstrip_all (p : ascii -> bool) (s : str) :
  forallb p s = true -> lstrip_with p s = [].
Proof.
  induction s as [|c s IH]; simpl; [reflexivity|].
  destruct (p c); simpl; [exact IH | discriminate].
Qed.

Lemma forallb_rev {X : Type} (p : X -> bool) (l : list X) :
  forallb p (rev l) = forallb p l.
Proof.
  induction l as [|x l IH]; [reflexivity|].
  simpl; rewrite forallb_app, IH; simpl.
  rewrite andb_true_r; apply andb_comm.
Qed.

Lemma rstrip_all (p : ascii -> bool) (s : str) :
  forallb p s = true -> rstrip_with p s = [].
Proof.
  intros H; unfold rstrip_with.
  rewrite lstrip_all; [reflexivity | now rewrite forallb_rev].
Qed.

Lemma strip_blank (s : str) : forallb isspace s = true -> strip s = [].
Proof.
  intros H; unfold strip, rstrip; now rewrite rstrip_all.
Qed.

Lemma lstrip_app (p : ascii -> bool) (a b : str) :
  lstrip_with p (a ++ b) =
  if forallb p a then lstrip_with p b else lstrip_with p a ++ b.
Proof.
  induction a as [|c a IH]; simpl; [reflexivity|].
  destruct (p c); simpl; [exact IH | reflexivity].
Qed.

Lemma rstrip_app (p : ascii -> bool) (a b : str) :
  rstrip_with p (a ++ b) =
  if forallb p b then rstrip_with p a else a ++ rstrip_with p b.
Proof.
  unfold rstrip_with.
  rewrite rev_app_distr, lstrip_app, forallb_rev.
  destruct (forallb p b); [reflexivity|].
  now rewrite rev_app_distr, rev_involutive.
Qed.

Lemma lstrip_fixed (p : ascii -> bool) (s : str) :
  lstrip_with p (lstrip_with p s) = lstrip_with p s.
Proof.
  induction s as [|c s IH]; simpl; [reflexivity|].
  destruct (p c) eqn:E; [exact IH|].
  simpl; now rewrite E.
Qed.

Lemma rstrip_fixed (p : ascii -> bool) (s : str) :
  rstrip_with p (rstrip_with p s) = rstrip_with p s.
Proof.
  unfold rstrip_with; now rewrite rev_involutive, lstrip_fixed.
Qed.

Lemma lower_char_colon (c : ascii) :
  Ascii.eqb (lower_char c) ":" = Ascii.eqb c ":".
Proof.
  destruct c as [[] [] [] [] [] [] [] []]; reflexivity.
Qed.

Lemma partition_char_cons (c x : ascii) (s : str) :
  partition [c] (x :: s) =
  if Ascii.eqb c x then Some ([], s)
  else match partition [c] s with
       | Some (before, after) => Some (x :: before, after)
       | None => None
       end.
Proof. simpl; rewrite andb_true_r; reflexivity. Qed.

(** On a line whose lower-cased text starts with [key:], the item after
    the first cut at a colon exists: it is the text that follows the key. *)
Lemma field_text (key line : str) :
  forallb (fun c => negb (Ascii.eqb c ":")) key = true ->
  startswith (key ++ ":") (lower line) = true ->
  index (split_max 1 ":" line) 1 = Ok (skipn (S (length key)) line).
Proof.
  intros Hkey H.
  assert (E : partition [":"%char] line
              = Some (firstn (length key) line, skipn (S (length key)) line)).
  { change (lit ":") with [":"%char] in H.
    revert line H; induction key as [|k key IH]; intros [|c line];
      cbn [app lower map startswith length firstn skipn]; try discriminate.
    - rewrite andb_true_r, partition_char_cons, Ascii.eqb_sym, lower_char_colon.
      rewrite (Ascii.eqb_sym c); intros ->; reflexivity.
    - cbn [forallb] in Hkey; apply andb_prop in Hkey as [Hk Hkey].
      intros H; apply andb_prop in H as [Hc H].
      apply Ascii.eqb_eq in Hc; subst k.
      rewrite lower_char_colon in Hk; apply negb_true_iff in Hk.
      rewrite partition_char_cons, Ascii.eqb_sym, Hk.
      now rewrite (IH Hkey line H). }
  change (lit ":") with [":"%char].
  cbn [split_max]; rewrite E; reflexivity.
Qed.

(** ** The line loops *)

Lemma startswith_head (a b : ascii) (p q s : str) :
  a <> b -> startswith (a :: p) s = true -> startswith (b :: q) s = false.
Proof.
  intros Hab; destruct s as [|c s]; cbn [startswith]; [reflexivity|].
  intros H; apply andb_prop in H as [H _].
  apply Ascii.eqb_eq in H; subst c.
  apply andb_false_iff; left.
  apply Ascii.eqb_neq; congruence.
Qed.

Lemma field_partition (key line : str) :
  forallb (fun c => negb (Ascii.eqb c ":")) key = true ->
  is_field key line = true ->
  partition ":" line = Some (firstn (length key) line, skipn (S (length key)) line).
Proof.
  unfold is_field; intros Hkey H.
  change (lit ":") with [":"%char] in *.
  revert line H; induction key as [|k key IH]; intros [|c line];
    cbn [app lower map startswith length firstn skipn]; try discriminate.
  - rewrite andb_true_r, partition_char_cons, Ascii.eqb_sym, lower_char_colon.
    rewrite (Ascii.eqb_sym c); intros ->; reflexivity.
  - cbn [forallb] in Hkey; apply andb_prop in Hkey as [Hk Hkey].
    intros H; apply andb_prop in H as [Hc H].
    apply Ascii.eqb_eq in Hc; subst k.
    rewrite lower_char_colon in Hk; apply negb_true_iff in Hk.
    rewrite partition_char_cons, Ascii.eqb_sym, Hk.
    now rewrite (IH Hkey line H).
Qed.

(** On a field line the subscript [[1]] never raises, and what the code
    trims is the value of the line. *)
Lemma field_index (key line : str) :
  forallb (fun c => negb (Ascii.eqb c ":")) key = true ->
  is_field key line = true ->
  exists field, index (split_max 1 ":" line) 1 = Ok field
                /\ strip field = field_value line.
Proof.
  intros Hkey H.
  pose proof (field_partition key line Hkey H) as E.
  exists (skipn (S (length key)) line).
  unfold field_value; cbn [split_max]; rewrite E; split; reflexivity.
Qed.

Lemma for_each_app {S A : Type} (body : S -> A -> result S) (l1 l2 : list A) (st : S) :
  for_each body (l1 ++ l2) st = st' <- for_each body l1 st ;; for_each body l2 st'.
Proof.
  revert st; induction l1 as [|x l1 IH]; intros st; simpl; [reflexivity|].
  destruct (body st x) as [st'|e]; simpl; [apply IH | reflexivity].
Qed.

Section ParserFacts.
Context {runtime : Runtime}.

(** *** Posts *)

Lemma post_line_date (published : option datetime) (body_lines : list str) (line : str) :
  is_field "date" line = true ->
  post_line (published, body_lines) line
  = Ok (if truthy (field_value line) then fromisoformat (field_value line)
        else published,
        body_lines).
Proof.
  intros H.
  destruct (field_index "date" line eq_refl H) as (field & Hi & Hv).
  unfold post_line.
  change (startswith "date:" (lower line)) with (is_field "date" line).
  rewrite H, Hi; cbn [bind]; rewrite Hv.
  destruct (truthy (field_value line)); reflexivity.
Qed.

Lemma post_line_body (published : option datetime) (body_lines : list str) (line : str) :
  is_field "date" line = false ->
  post_line (published, body_lines) line = Ok (published, body_lines ++ [line]).
Proof.
  intros H; unfold post_line.
  change (startswith "date:" (lower line)) with (is_field "date" line).
  now rewrite H.
Qed.

(** The loop of [_parse_markdown] never raises; the body lines are the
    lines that are not date lines, in their order. *)
Lemma post_loop (lines : list str) (published : option datetime) (body_lines : list str) :
  exists published',
    for_each post_line lines (published, body_lines)
    = Ok (published',
          body_lines ++ filter (fun line => negb (is_field "date" line)) lines).
Proof.
  revert published body_lines; induction lines as [|line lines IH];
    intros published body_lines; cbn [for_each filter].
  - exists published; now rewrite app_nil_r.
  - destruct (is_field "date" line) eqn:E; cbn [negb].
    + rewrite (post_line_date _ _ _ E); cbn [bind]; apply IH.
    + rewrite (post_line_body _ _ _ E); cbn [bind].
      destruct (IH published (body_lines ++ [line])) as [p' Hp'].
      exists p'; rewrite Hp', <- app_assoc; reflexivity.
Qed.

Lemma parse_markdown_total (md_text : str) :
  exists title excerpt published,
    _parse_markdown md_text
    = Ok (title, excerpt, markdown (post_markup md_text) extensions, published).
Proof.
  unfold _parse_markdown, post_markup, document_body.
  set (lines := map rstrip (splitlines md_text)).
  destruct (title_line lines) as [line0|].
  - destruct (post_loop (skipn 1 lines) None []) as [p Hp].
    rewrite Hp; cbn [bind app]; eauto.
  - destruct (post_loop (skipn 0 lines) None []) as [p Hp].
    rewrite Hp; cbn [bind app skipn]; eauto.
Qed.

(** *** Roadmap entries *)

Lemma roadmap_line_status st line :
  is_field "status" line = true ->
  roadmap_line st line
  = Ok (let '(status, deadline, progress, body_lines) := st in
        (if truthy (field_value line) then field_value line else status,
         deadline, progress, body_lines)).
Proof.
  intros H; destruct st as [[[status deadline] progress] body_lines].
  destruct (field_index "status" line eq_refl H) as (field & Hi & Hv).
  unfold roadmap_line.
  change (startswith "status:" (lower line)) with (is_field "status" line).
  rewrite H, Hi; cbn [bind]; rewrite Hv.
  destruct (truthy (field_value line)); reflexivity.
Qed.

Lemma roadmap_line_deadline st line :
  is_field "deadline" line = true ->
  roadmap_line st line
  = Ok (let '(status, deadline, progress, body_lines) := st in
        (status,
         if truthy (field_value line) then Some (field_value line) else deadline,
         progress, body_lines)).
Proof.
  intros H; destruct st as [[[status deadline] progress] body_lines].
  destruct (field_index "deadline" line eq_refl H) as (field & Hi & Hv).
  assert (Hs : is_field "status" line = false).
  { unfold is_field in *; eapply startswith_head; [|exact H]; discriminate. }
  unfold roadmap_line.
  change (startswith "status:" (lower line)) with (is_field "status" line).
  change (startswith "deadline:" (lower line)) with (is_field "deadline" line).
  rewrite Hs, H, Hi; cbn [bind]; rewrite Hv.
  destruct (truthy (field_value line)); reflexivity.
Qed.

Lemma int_empty : int [] = None.
Proof. reflexivity. Qed.

Lemma roadmap_line_progress st line :
  is_field "progress" line = true ->
  roadmap_line st line
  = Ok (let '(status, deadline, progress, body_lines) := st in
        (status, deadline,
         match code_progress (field_value line) with
         | Some parsed => Some parsed
         | None => progress
         end,
         body_lines)).
Proof.
  intros H; destruct st as [[[status deadline] progress] body_lines].
  destruct (field_index "progress" line eq_refl H) as (field & Hi & Hv).
  assert (Hs : is_field "status" line = false).
  { unfold is_field in *; eapply startswith_head; [|exact H]; discriminate. }
  assert (Hd : is_field "deadline" line = false).
  { unfold is_field in *; eapply startswith_head; [|exact H]; discriminate. }
  unfold roadmap_line, code_progress.
  change (startswith "status:" (lower line)) with (is_field "status" line).
  change (startswith "deadline:" (lower line)) with (is_field "deadline" line).
  change (startswith "progress:" (lower line)) with (is_field "progress" line).
  rewrite Hs, Hd, H, Hi; cbn [bind]; rewrite Hv.
  destruct (rstrip_chars "%" (field_value line)) as [|c v] eqn:E; cbn [truthy].
  - rewrite int_empty; reflexivity.
  - destruct (int (c :: v)) as [parsed|]; [|reflexivity].
    destruct ((0 <=? parsed) && (parsed <=? 100)); reflexivity.
Qed.

Lemma roadmap_line_body st line :
  is_roadmap_field line = false ->
  roadmap_line st line
  = Ok (let '(status, deadline, progress, body_lines) := st in
        (status, deadline, progress, body_lines ++ [line])).
Proof.
  unfold is_roadmap_field; intros H.
  apply orb_false_elim in H as [H Hp]; apply orb_false_elim in H as [Hs Hd].
  destruct st as [[[status deadline] progress] body_lines].
  unfold roadmap_line.
  change (startswith "status:" (lower line)) with (is_field "status" line).
  change (startswith "deadline:" (lower line)) with (is_field "deadline" line).
  change (startswith "progress:" (lower line)) with (is_field "progress" line).
  now rewrite Hs, Hd, Hp.
Qed.

(** The loop of [_parse_roadmap_entry] never raises; the body lines are the
    lines that are not field lines, in their order. *)
Lemma roadmap_loop (lines : list str) (st : str * option str * option Z * list str) :
  exists status' deadline' progress',
    for_each roadmap_line lines st
    = Ok (status', deadline', progress',
          snd st ++ filter (fun line => negb (is_roadmap_field line)) lines).
Proof.
  revert st; induction lines as [|line lines IH];
    intros [[[status deadline] progress] body_lines]; cbn [for_each filter snd].
  - exists status, deadline, progress; now rewrite app_nil_r.
  - unfold is_roadmap_field at 1.
    destruct (is_field "status" line) eqn:Es; cbn [orb negb].
    { rewrite (roadmap_line_status _ _ Es); cbn [bind]; apply IH. }
    destruct (is_field "deadline" line) eqn:Ed; cbn [orb negb].
    { rewrite (roadmap_line_deadline _ _ Ed); cbn [bind]; apply IH. }
    destruct (is_field "progress" line) eqn:Ep; cbn [orb negb].
    { rewrite (roadmap_line_progress _ _ Ep); cbn [bind]; apply IH. }
    rewrite roadmap_line_body
      by (unfold is_roadmap_field; now rewrite Es, Ed, Ep).
    cbn [bind].
    destruct (IH (status, deadline, progress, body_lines ++ [line]))
      as (s' & d' & p' & H').
    exists s', d', p'; rewrite H'; cbn [snd]; rewrite <- app_assoc; reflexivity.
Qed.

Lemma parse_roadmap_entry_total (md_text : str) :
  exists title status deadline progress excerpt,
    _parse_roadmap_entry md_text
    = Ok (title, status, markdown (entry_markup md_text) extensions,
          deadline, progress, excerpt).
Proof.
  unfold _parse_roadmap_entry, entry_markup, document_body.
  set (lines := map rstrip (splitlines md_text)).
  destruct (title_line lines) as [line0|];
    match goal with
    | |- context [for_each roadmap_line ?l (?s, ?d, ?p, ?b)] =>
        destruct (roadmap_loop l (s, d, p, b)) as (s' & d' & p' & H)
    end;
    rewrite H; cbn [bind app skipn snd]; eauto 10.
Qed.

End ParserFacts.

(** ** Excerpts *)

Lemma first_paragraph_find (paragraphs : list str) :
  first_paragraph paragraphs =
  match find (fun paragraph => truthy (strip paragraph)) paragraphs with
  | Some paragraph => replace NL " " (strip paragraph)
  | None => []
  end.
Proof.
  induction paragraphs as [|p ps IH]; cbn [first_paragraph find]; [reflexivity|].
  destruct (truthy (strip p)); [reflexivity | exact IH].
Qed.

Lemma forallb_Forall_true {X : Type} (p : X -> bool) (l : list X) :
  forallb p l = true <-> Forall (fun x => p x = true) l.
Proof.
  rewrite forallb_forall, Forall_forall; reflexivity.
Qed.

Lemma first_paragraph_blank (paragraphs : list str) :
  Forall (Forall (fun c => isspace c = true)) paragraphs ->
  first_paragraph paragraphs = [].
Proof.
  induction 1 as [|p ps Hp _ IH]; cbn [first_paragraph]; [reflexivity|].
  rewrite strip_blank by (now apply forallb_Forall_true).
  exact IH.
Qed.

(** C9. Excerpt extraction cuts the body at every blank-line boundary (two
    consecutive newlines) and returns the first paragraph that is not empty
    once trimmed, each of its newlines turned into one space, or the empty
    string when there is none; it is a total function.  The excerpt never
    holds a newline; the body "Para one.\n\nPara two." gives "Para one.",
    and a body made of blank characters only gives the empty string. *)
Theorem extract_excerpt_first_paragraph :
  (forall body_text,
     _extract_excerpt body_text =
     match find (fun paragraph => truthy (strip paragraph))
                (split (NL ++ NL) body_text) with
     | Some paragraph => map (swap_char "010" " ") (strip paragraph)
     | None => []
     end)
  /\ (forall body_text, ~ In "010"%char (_extract_excerpt body_text))
  /\ _extract_excerpt ("Para one." ++ NL ++ NL ++ "Para two.") = "Para one."
  /\ (forall body_text,
        forallb isspace body_text = true -> _extract_excerpt body_text = []).
Proof.
  assert (E : forall body_text,
     _extract_excerpt body_text =
     match find (fun paragraph => truthy (strip paragraph))
                (split (NL ++ NL) body_text) with
     | Some paragraph => map (swap_char "010" " ") (strip paragraph)
     | None => []
     end).
  { intros body_text; unfold _extract_excerpt.
    rewrite first_paragraph_find.
    destruct (find _ _); [|reflexivity].
    apply (replace_char "010" " "). }
  split; [exact E|].
  split; [|split; [reflexivity|]].
  - intros body_text; rewrite E.
    destruct (find _ _) as [p|]; [|intros []].
    rewrite in_map_iff; intros (x & Hx & _).
    unfold swap_char in Hx.
    destruct (Ascii.eqb_spec x "010"); [discriminate | contradiction].
  - intros body_text H; unfold _extract_excerpt.
    apply first_paragraph_blank, split_max_Forall.
    now apply forallb_Forall_true.
Qed.

(** A body of spaces and newlines has an empty excerpt. *)
Lemma extract_excerpt_first_paragraph_witness :
  _extract_excerpt ("  " ++ NL ++ NL ++ " " ++ NL) = [].
Proof.
  apply (proj2 (proj2 (proj2 extract_excerpt_first_paragraph))).
  reflexivity.
Defined.

(** ** Fields *)

Section FieldFacts.
Context {runtime : Runtime}.

(** C5. Deadline parsing tries [datetime.fromisoformat], then the pattern
    [%Y-%m-%d], then [%Y/%m/%d], in this order, and returns what the first
    successful one returns; an absent or empty string, or one that no format
    reads, gives no deadline.  The function is total: it returns a deadline
    or none and raises nothing. *)
Theorem parse_deadline_first_success (deadline : option str) :
  _parse_deadline deadline =
  match deadline with
  | None => None
  | Some value =>
      if truthy value then
        match fromisoformat value with
        | Some dt => Some dt
        | None =>
            match strptime value "%Y-%m-%d" with
            | Some dt => Some dt
            | None => strptime value "%Y/%m/%d"
            end
        end
      else None
  end.
Proof.
  destruct deadline as [value|]; [|reflexivity].
  unfold _parse_deadline; destruct (truthy value); [|reflexivity].
  cbn [first_parse].
  destruct (fromisoformat value); [reflexivity|].
  destruct (strptime value "%Y-%m-%d"); [reflexivity|].
  destruct (strptime value "%Y/%m/%d"); reflexivity.
Qed.

End FieldFacts.

(** The counterexample to C3 as it is worded: on "progress: 50%%" the code
    stores 50, while removing one trailing [%] leaves "50%", which is not an
    integer. *)
Lemma progress_fifty_percent_percent :
  is_field "progress" "progress: 50%%" = true
  /\ roadmap_line (lit "Now", None, None, []) "progress: 50%%"
     = Ok (lit "Now", None, Some 50, [])
  /\ spec_progress (field_value "progress: 50%%") = None.
Proof. repeat split; reflexivity. Qed.

(** ** The text handed to the renderer *)

Lemma title_line_inv (lines : list str) (line0 : str) :
  title_line lines = Some line0 ->
  exists rest, lines = line0 :: rest /\ startswith "# " line0 = true.
Proof.
  destruct lines as [|l rest]; cbn [title_line]; [discriminate|].
  destruct (startswith "# " l) eqn:E; [|discriminate].
  intros H; injection H as <-; eauto.
Qed.

(** Trimming a text leaves a prefix alone when the prefix ends a trimmed
    line and starts with a character that is not blank. *)
Lemma strip_keeps_prefix (c : ascii) (r tail : str) :
  isspace c = false ->
  rstrip (c :: r) = c :: r ->
  exists rest, strip ((c :: r) ++ tail) = (c :: r) ++ rest.
Proof.
  intros Hc Hr; unfold strip, rstrip in *.
  rewrite rstrip_app.
  destruct (forallb isspace tail).
  - exists []; rewrite Hr, app_nil_r; cbn [lstrip_with]; now rewrite Hc.
  - exists (rstrip_with isspace tail); cbn [app lstrip_with]; now rewrite Hc.
Qed.

Section MarkupFacts.
Context {runtime : Runtime}.

End MarkupFacts.

(** ** Entities *)

Lemma sort_with_keys_perm {K A : Type} (ltb : K -> K -> bool) (reverse : bool)
      (keys : list K) (items : list A) :
  length keys = length items ->
  Permutation (sort_with_keys ltb reverse keys items) items.
Proof.
  intros Hlen; unfold sort_with_keys.
  rewrite (Permutation_map snd (sort_decorated_perm ltb reverse (combine keys items))).
  clear reverse; revert items Hlen; induction keys as [|k keys IH];
    intros [|x items] Hlen; try discriminate; cbn [combine map]; [reflexivity|].
  constructor; apply IH; now injection Hlen.
Qed.

Lemma sort_with_keys_In {K A : Type} (ltb : K -> K -> bool) (reverse : bool)
      (keys : list K) (items : list A) (x : A) :
  In x (sort_with_keys ltb reverse keys items) -> In x items.
Proof.
  unfold sort_with_keys; rewrite in_map_iff; intros ([k y] & <- & H).
  apply (Permutation_in _ (sort_decorated_perm ltb reverse _)) in H.
  now apply in_combine_r in H.
Qed.

Lemma roadmap_keys_length `{Runtime} (clock : nat -> Z) (entries : list RoadmapEntry)
      (tick : nat) (keys : list (Z * Z * float * float)) :
  roadmap_keys clock entries tick = Ok keys -> length keys = length entries.
Proof.
  revert tick keys; induction entries as [|e entries IH]; intros tick keys;
    cbn [roadmap_keys].
  - intros E; injection E as <-; reflexivity.
  - intros E; apply bind_ok in E as (kt & _ & E).
    apply bind_ok in E as (ks & Hks & E).
    injection E as <-; cbn [length]; f_equal; eapply IH; eassumption.
Qed.

Lemma class_at_rank (key : str) :
  dict_get status_classes key "status-now"
  = nth (Z.to_nat
           (dict_get [(lit "now", 0); (lit "next", 1); (lit "later", 2);
                      (lit "done", 3)] key 0))
      known_classes [].
Proof.
  unfold status_classes; cbn [dict_get].
  repeat (destruct (list_eq_dec ascii_dec _ key); [reflexivity|]).
  reflexivity.
Qed.

Lemma class_is_known (key : str) :
  In (dict_get status_classes key "status-now") known_classes.
Proof.
  unfold status_classes, known_classes; cbn [dict_get].
  repeat (destruct (list_eq_dec ascii_dec _ key); [cbn; tauto|]).
  cbn; tauto.
Qed.

Section EntityFacts.
Context {runtime : Runtime}.

Lemma build_entry_known (md_path : md_file) :
  exists entry, build_entry md_path = Ok entry /\ known_class entry.
Proof.
  unfold build_entry.
  destruct (parse_roadmap_entry_total (read_text md_path))
    as (t & s & d & p & x & E).
  rewrite E; cbn [bind].
  eexists; split; [reflexivity|].
  unfold known_class, _status_rank; cbn [status_class status].
  destruct s as [|c s]; cbn [truthy].
  - repeat split; cbn; tauto.
  - split; [reflexivity|]; split; [apply class_is_known | apply class_at_rank].
Qed.

Lemma build_post_total (md_path : md_file) :
  exists post, build_post md_path = Ok post.
Proof.
  unfold build_post.
  destruct (parse_markdown_total (read_text md_path)) as (t & e & p & E).
  rewrite E; cbn [bind]; eauto.
Qed.

Lemma map_result_ok {A B : Type} (f : A -> result B) (P : B -> Prop) (l : list A) :
  (forall x, exists y, f x = Ok y /\ P y) ->
  exists out, map_result f l = Ok out /\ Forall P out.
Proof.
  intros Hf; induction l as [|x l (out & E & HP)]; cbn [map_result].
  - exists []; split; [reflexivity | constructor].
  - destruct (Hf x) as (y & Hy & Py).
    rewrite Hy, E; cbn [bind].
    exists (y :: out); split; [reflexivity | now constructor].
Qed.

(** C7. Every RoadmapEntry the load builds has a [status_class] that is
    one of exactly four categories, those of now, next, later and done: the
    category is looked up from the status text, trimmed and lower-cased, and
    any other text gets the category of now; it is the category whose rank
    [_status_rank] gives to the status.  Building an entry never fails, and
    the entries a load returns are among the built ones. *)
Theorem status_class_known :
  (forall glob,
     exists entries,
       map_result build_entry (sorted_paths glob) = Ok entries
       /\ Forall known_class entries)
  /\ (forall clock glob entries,
        load_roadmap clock glob = Ok entries -> Forall known_class entries)
  /\ (forall status1 status2 : str,
        lower (strip status1) = lower (strip status2) ->
        dict_get status_classes (lower (strip status1)) "status-now"
        = dict_get status_classes (lower (strip status2)) "status-now")
  /\ dict_get status_classes (lower (strip " DONE ")) "status-now" = "status-done"
  /\ dict_get status_classes (lower (strip "Later")) "status-now" = "status-later"
  /\ dict_get status_classes (lower (strip "next")) "status-now" = "status-next"
  /\ dict_get status_classes (lower (strip "someday")) "status-now" = "status-now".
Proof.
  assert (Hbuilt : forall glob,
     exists entries,
       map_result build_entry (sorted_paths glob) = Ok entries
       /\ Forall known_class entries).
  { intros glob; apply map_result_ok, build_entry_known. }
  split; [exact Hbuilt|].
  split; [|split; [intros s1 s2 ->; reflexivity | repeat split; reflexivity]].
  intros clock glob entries; unfold load_roadmap.
  destruct (Hbuilt glob) as (built & -> & Hk); cbn [bind].
  intros E; apply bind_ok in E as (keys & _ & E); injection E as <-.
  rewrite Forall_forall in *; intros e He; apply Hk.
  eapply sort_with_keys_In; exact He.
Qed.

End EntityFacts.

(** A directory of two entries, loaded under the reference runtime. *)
Lemma status_class_known_witness :
  exists entries,
    @load_roadmap cpython_utc (fun _ => 0) two_statuses = Ok entries
    /\ Forall known_class entries
    /\ map status_class entries = [lit "status-now"; lit "status-done"].
Proof.
  eexists; split; [vm_compute; reflexivity|].
  split; [|reflexivity].
  apply (proj1 (proj2 (@status_class_known cpython_utc)) (fun _ => 0) two_statuses).
  vm_compute; reflexivity.
Defined.

(** ** Malformed field values *)

Section DegradeFacts.
Context {runtime : Runtime}.

Lemma load_posts_total (glob : list md_file) :
  exists posts, load_posts glob = Ok posts.
Proof.
  unfold load_posts.
  destruct (map_result_ok build_post (fun _ => True) (sorted_paths glob))
    as (posts & -> & _).
  - intros md_path; destruct (build_post_total md_path) as [post E]; eauto.
  - cbn [bind]; eauto.
Qed.

(** C6. A field line whose value fails its parse rule never makes the
    parse raise or the load fail.  Both parsers return on every document,
    every Post and RoadmapEntry is built, and loading the posts returns.  A
    date line whose value is not ISO-8601 leaves [published_at] absent; a
    progress line whose value is not an integer in [0,100] leaves the
    progress as it was; a deadline that no format reads is kept as text but
    is no deadline for ranking: both sort keys are those of an entry
    without a deadline, and computing them raises nothing on account of the
    deadline. *)
Theorem malformed_field_is_absent :
  (forall md_text, exists parsed, _parse_markdown md_text = Ok parsed)
  /\ (forall md_text, exists parsed, _parse_roadmap_entry md_text = Ok parsed)
  /\ (forall md_path, exists post, build_post md_path = Ok post)
  /\ (forall md_path, exists entry, build_entry md_path = Ok entry)
  /\ (forall glob, exists posts, load_posts glob = Ok posts)
  /\ (forall published body_lines line,
        is_field "date" line = true ->
        truthy (field_value line) = true ->
        fromisoformat (field_value line) = None ->
        post_line (published, body_lines) line = Ok (None, body_lines))
  /\ (forall st line,
        is_field "progress" line = true ->
        code_progress (field_value line) = None ->
        roadmap_line st line = Ok st)
  /\ (forall entry value,
        deadline entry = Some value ->
        fromisoformat value = None ->
        strptime value "%Y-%m-%d" = None ->
        strptime value "%Y/%m/%d" = None ->
        _parse_deadline (deadline entry) = None
        /\ _homepage_sort_key entry
           = Ok (- match progress entry with Some p => p | None => -1 end,
                 1, Infinity)
        /\ forall clock tick,
             _roadmap_sort_key clock entry tick
             = ts <- local_timestamp (updated_at entry) ;;
               Ok ((_status_rank (status entry), 1, Infinity, float_neg_finite ts),
                   tick)).
Proof.
  split.
  { intros md; destruct (parse_markdown_total md) as (t & e & p & E); eauto. }
  split.
  { intros md; destruct (parse_roadmap_entry_total md)
      as (t & s & d & p & e & E); eauto. }
  split; [apply build_post_total|].
  split.
  { intros md_path; destruct (build_entry_known md_path) as (e & E & _); eauto. }
  split; [apply load_posts_total|].
  split.
  { intros published body_lines line H Hv Hp.
    now rewrite post_line_date, Hv, Hp. }
  split.
  { intros [[[s d] p] body_lines] line H Hp.
    now rewrite roadmap_line_progress, Hp. }
  intros entry value Hd Hiso Hdash Hslash.
  assert (Hnone : _parse_deadline (deadline entry) = None).
  { rewrite parse_deadline_first_success, Hd.
    destruct (truthy value); [|reflexivity].
    now rewrite Hiso, Hdash, Hslash. }
  split; [exact Hnone|].
  split.
  - unfold _homepage_sort_key; now rewrite Hnone.
  - intros clock tick; unfold _roadmap_sort_key; now rewrite Hnone.
Qed.

End DegradeFacts.

(** Three malformed values under the reference runtime. *)
Lemma malformed_field_is_absent_witness :
  @post_line cpython_utc (Some (Naive 0), []) "date: 2024-13-45" = Ok (None, [])
  /\ roadmap_line (lit "Now", None, Some 10, []) "progress: lots"
     = Ok (lit "Now", None, Some 10, [])
  /\ @_parse_deadline cpython_utc (deadline vague_entry) = None
  /\ @_homepage_sort_key cpython_utc vague_entry = Ok (-50, 1, Infinity)
  /\ @_roadmap_sort_key cpython_utc (fun _ => 0) vague_entry 0
     = Ok ((0, 1, Infinity, Finite (- 86400000000)), 0%nat).
Proof.
  pose proof (@malformed_field_is_absent cpython_utc)
    as (_ & _ & _ & _ & _ & Hdate & Hprogress & Hdeadline).
  destruct (Hdeadline vague_entry "soon" eq_refl eq_refl eq_refl eq_refl)
    as (Hnone & Hhome & Hroad).
  refine (conj _ (conj _ (conj Hnone (conj Hhome _)))).
  - apply (Hdate (Some (Naive 0)) [] "date: 2024-13-45"); reflexivity.
  - apply (Hprogress (lit "Now", None, Some 10, []) "progress: lots"); reflexivity.
  - rewrite Hroad; reflexivity.
Defined.

(** ** The orders on keys *)

Section LexFacts.
Context {A B : Type} (eqA ltA : A -> A -> bool) (ltB : B -> B -> bool).
Hypothesis eqA_eq : forall a b, eqA a b = true <-> a = b.
Hypothesis ltA_asym : forall a b, ltA a b = true -> ltA b a = false.
Hypothesis ltA_ntrans :
  forall a b c, ltA a b = false -> ltA b c = false -> ltA a c = false.
Hypothesis ltA_total : forall a b, ltA a b = false -> ltA b a = false -> a = b.
Hypothesis ltB_asym : forall a b, ltB a b = true -> ltB b a = false.
Hypothesis ltB_ntrans :
  forall a b c, ltB a b = false -> ltB b c = false -> ltB a c = false.

Lemma eqA_refl (a : A) : eqA a a = true.
Proof. now apply eqA_eq. Qed.

Lemma eqA_neq (a b : A) : eqA a b = false <-> a <> b.
Proof.
  rewrite <- not_true_iff_false, eqA_eq; reflexivity.
Qed.

Lemma lex_asym (x y : A * B) :
  lex eqA ltA ltB x y = true -> lex eqA ltA ltB y x = false.
Proof.
  destruct x as [a b], y as [a' b']; unfold lex; cbn [fst snd].
  destruct (eqA a a') eqn:E; cbn [negb].
  - apply eqA_eq in E; subst a'; rewrite eqA_refl; cbn [negb]; apply ltB_asym.
  - assert (E' : eqA a' a = false) by (apply eqA_neq in E; apply eqA_neq; congruence).
    rewrite E'; cbn [negb]; apply ltA_asym.
Qed.

Lemma lex_ntrans (x y z : A * B) :
  lex eqA ltA ltB x y = false -> lex eqA ltA ltB y z = false ->
  lex eqA ltA ltB x z = false.
Proof.
  destruct x as [a b], y as [a' b'], z as [a'' b'']; unfold lex; cbn [fst snd].
  destruct (eqA a a') eqn:E1; cbn [negb].
  - apply eqA_eq in E1; subst a'.
    destruct (eqA a a''); cbn [negb]; [apply ltB_ntrans | tauto].
  - destruct (eqA a' a'') eqn:E2; cbn [negb].
    + apply eqA_eq in E2; subst a''; rewrite E1; cbn [negb]; tauto.
    + intros H1 H2; pose proof (ltA_ntrans _ _ _ H1 H2) as H3.
      destruct (eqA a a'') eqn:E3; cbn [negb]; [|exact H3].
      apply eqA_eq in E3; subst a''.
      apply eqA_neq in E1; exfalso; apply E1; now apply ltA_total.
Qed.

Hypothesis ltB_total : forall a b, ltB a b = false -> ltB b a = false -> a = b.

Lemma lex_total (x y : A * B) :
  lex eqA ltA ltB x y = false -> lex eqA ltA ltB y x = false -> x = y.
Proof.
  destruct x as [a b], y as [a' b']; unfold lex; cbn [fst snd].
  destruct (eqA a a') eqn:E; cbn [negb].
  - apply eqA_eq in E; subst a'; rewrite eqA_refl; cbn [negb].
    intros H1 H2; f_equal; now apply ltB_total.
  - assert (E' : eqA a' a = false) by (apply eqA_neq in E; apply eqA_neq; congruence).
    rewrite E'; cbn [negb]; intros H1 H2.
    apply eqA_neq in E; exfalso; apply E; now apply ltA_total.
Qed.
End LexFacts.

Lemma pair_eqb_eq {A B : Type} (eqA : A -> A -> bool) (eqB : B -> B -> bool) :
  (forall a b, eqA a b = true <-> a = b) ->
  (forall a b, eqB a b = true <-> a = b) ->
  forall x y, pair_eqb eqA eqB x y = true <-> x = y.
Proof.
  intros HA HB [a b] [a' b']; unfold pair_eqb; cbn [fst snd].
  rewrite andb_true_iff, HA, HB; split; [intros [-> ->]; reflexivity|].
  intros E; injection E as -> ->; split; reflexivity.
Qed.

Lemma Z_ltb_asym (a b : Z) : (a <? b) = true -> (b <? a) = false.
Proof. rewrite Z.ltb_lt, Z.ltb_ge; lia. Qed.

Lemma Z_ltb_ntrans (a b c : Z) :
  (a <? b) = false -> (b <? c) = false -> (a <? c) = false.
Proof. rewrite !Z.ltb_ge; lia. Qed.

Lemma Z_ltb_total (a b : Z) : (a <? b) = false -> (b <? a) = false -> a = b.
Proof. rewrite !Z.ltb_ge; lia. Qed.



Lemma value_ltb_asym (a b : option Z) :
  value_ltb a b = true -> value_ltb b a = false.
Proof.
  destruct a, b; cbn; try reflexivity; try discriminate; apply Z_ltb_asym.
Qed.

Lemma value_ltb_ntrans (a b c : option Z) :
  value_ltb a b = false -> value_ltb b c = false -> value_ltb a c = false.
Proof.
  destruct a, b, c; cbn; try reflexivity; try discriminate; apply Z_ltb_ntrans.
Qed.

Lemma value_ltb_total (a b : option Z) :
  value_ltb a b = false -> value_ltb b a = false -> a = b.
Proof.
  destruct a, b; cbn; try discriminate; try reflexivity.
  rewrite !Z.ltb_ge; intros; f_equal; lia.
Qed.

(** A time stamp a day after the epoch is the nearest float; two seconds
    after it, adding the microseconds to the seconds can give the float
    above the nearest one. *)
Example stamp_rounds_twice :
  stamp 86400000000 = Finite 86400000000
  /\ float_ltb (Finite 2225646) (stamp 2225646) = true
  /\ float_ltb (stamp (- 199948)) (Finite (- 199948)) = true
  /\ float_eqb (Finite 1500000) (stamp 1500000) = true.
Proof. repeat split; vm_compute; reflexivity. Qed.

Lemma value_eqb_eq (a b : option Z) : value_eqb a b = true <-> a = b.
Proof.
  destruct a, b; cbn; try (split; [discriminate | congruence]);
    [|split; reflexivity].
  rewrite Z.eqb_eq; split; congruence.
Qed.

(** The floats of a key are compared by their values. *)
Lemma key3_ltb_lex (a b : Z * Z * float) :
  key3_ltb a b
  = lex (pair_eqb Z.eqb Z.eqb) key2_ltb value_ltb (key3_values a) (key3_values b).
Proof.
  destruct a as [[a1 a2] a3], b as [[b1 b2] b3].
  unfold key3_ltb, key3_values, key2_ltb, lex, pair_eqb, float_ltb; cbn [fst snd].
  destruct (a1 =? b1); cbn [negb andb]; [|reflexivity].
  destruct (a2 =? b2); reflexivity.
Qed.

Lemma key4_ltb_lex (a b : Z * Z * float * float) :
  key4_ltb a b
  = lex (pair_eqb (pair_eqb Z.eqb Z.eqb) value_eqb)
        (lex (pair_eqb Z.eqb Z.eqb) key2_ltb value_ltb) value_ltb
        (key4_values a) (key4_values b).
Proof.
  destruct a as [[[a1 a2] a3] a4], b as [[[b1 b2] b3] b4].
  unfold key4_ltb, key4_values, key3_values, key2_ltb, lex, pair_eqb,
    float_ltb, float_eqb; cbn [fst snd].
  destruct (a1 =? b1); cbn [negb andb]; [|reflexivity].
  destruct (a2 =? b2); cbn [negb andb]; [|reflexivity].
  destruct (value_eqb (float_value a3) (float_value b3)); reflexivity.
Qed.

Lemma key2_ltb_asym (a b : Z * Z) : key2_ltb a b = true -> key2_ltb b a = false.
Proof. apply lex_asym; [apply Z.eqb_eq | apply Z_ltb_asym | apply Z_ltb_asym]. Qed.

Lemma key2_ltb_ntrans (a b c : Z * Z) :
  key2_ltb a b = false -> key2_ltb b c = false -> key2_ltb a c = false.
Proof.
  apply lex_ntrans;
    [apply Z.eqb_eq | apply Z_ltb_ntrans | apply Z_ltb_total | apply Z_ltb_ntrans].
Qed.

Lemma key2_ltb_total (a b : Z * Z) :
  key2_ltb a b = false -> key2_ltb b a = false -> a = b.
Proof. apply lex_total; [apply Z.eqb_eq | apply Z_ltb_total | apply Z_ltb_total]. Qed.

Lemma key2_eqb_eq (a b : Z * Z) : pair_eqb Z.eqb Z.eqb a b = true <-> a = b.
Proof. apply pair_eqb_eq; apply Z.eqb_eq. Qed.

Lemma values3_ltb_asym (a b : Z * Z * option Z) :
  lex (pair_eqb Z.eqb Z.eqb) key2_ltb value_ltb a b = true ->
  lex (pair_eqb Z.eqb Z.eqb) key2_ltb value_ltb b a = false.
Proof.
  apply lex_asym; [apply key2_eqb_eq | apply key2_ltb_asym | apply value_ltb_asym].
Qed.

Lemma values3_ltb_ntrans (a b c : Z * Z * option Z) :
  lex (pair_eqb Z.eqb Z.eqb) key2_ltb value_ltb a b = false ->
  lex (pair_eqb Z.eqb Z.eqb) key2_ltb value_ltb b c = false ->
  lex (pair_eqb Z.eqb Z.eqb) key2_ltb value_ltb a c = false.
Proof.
  apply lex_ntrans;
    [apply key2_eqb_eq | apply key2_ltb_ntrans | apply key2_ltb_total
     | apply value_ltb_ntrans].
Qed.

Lemma values3_ltb_total (a b : Z * Z * option Z) :
  lex (pair_eqb Z.eqb Z.eqb) key2_ltb value_ltb a b = false ->
  lex (pair_eqb Z.eqb Z.eqb) key2_ltb value_ltb b a = false -> a = b.
Proof.
  apply lex_total; [apply key2_eqb_eq | apply key2_ltb_total | apply value_ltb_total].
Qed.

Lemma values3_eqb_eq (a b : Z * Z * option Z) :
  pair_eqb (pair_eqb Z.eqb Z.eqb) value_eqb a b = true <-> a = b.
Proof. apply pair_eqb_eq; [apply key2_eqb_eq | apply value_eqb_eq]. Qed.

Lemma key3_ltb_asym (a b : Z * Z * float) :
  key3_ltb a b = true -> key3_ltb b a = false.
Proof. rewrite !key3_ltb_lex; apply values3_ltb_asym. Qed.

Lemma key3_ltb_ntrans (a b c : Z * Z * float) :
  key3_ltb a b = false -> key3_ltb b c = false -> key3_ltb a c = false.
Proof. rewrite !key3_ltb_lex; apply values3_ltb_ntrans. Qed.

Lemma key4_ltb_asym (a b : Z * Z * float * float) :
  key4_ltb a b = true -> key4_ltb b a = false.
Proof.
  rewrite !key4_ltb_lex.
  apply lex_asym;
    [apply values3_eqb_eq | apply values3_ltb_asym | apply value_ltb_asym].
Qed.

Lemma key4_ltb_ntrans (a b c : Z * Z * float * float) :
  key4_ltb a b = false -> key4_ltb b c = false -> key4_ltb a c = false.
Proof.
  rewrite !key4_ltb_lex.
  apply lex_ntrans;
    [apply values3_eqb_eq | apply values3_ltb_ntrans | apply values3_ltb_total
     | apply value_ltb_ntrans].
Qed.

(** ** Sorting by a key function *)

Section SortByKey.
Context {K A : Type} (ltb : K -> K -> bool) (f : A -> K).




Lemma sort_by_key_perm (reverse : bool) (l : list A) :
  Permutation (sort_with_keys ltb reverse (map f l) l) l.
Proof. apply sort_with_keys_perm, length_map. Qed.




Hypothesis ltb_asym : forall a b, ltb a b = true -> ltb b a = false.
Hypothesis ltb_ntrans :
  forall a b c, ltb a b = false -> ltb b c = false -> ltb a c = false.


End SortByKey.


Lemma sorted_paths_perm (glob : list md_file) : Permutation (sorted_paths glob) glob.
Proof. apply sort_by_key_perm. Qed.


(** ** Failures of the two roadmap orderings *)

(** C1. The homepage selection is not total.  Under the reference runtime
    the roadmap document "progress: 50\ndeadline: 0001-01-01" loads as one
    entry with progress 50 and a deadline that parses to a naive date on the
    first day of year 1; the selection keeps it as a candidate, and its
    sort key calls [timestamp()] on that date, which raises [ValueError]:
    [_select_homepage_entries] raises instead of returning the entry. *)
Theorem select_homepage_entries_year_one (clock : nat -> Z) :
  @load_roadmap cpython_utc clock year_one_plan = Ok [year_one_entry]
  /\ @_parse_deadline cpython_utc (deadline year_one_entry) = Some (Naive 0)
  /\ @_select_homepage_entries cpython_utc [year_one_entry] = Raise ValueError.
Proof. repeat split; vm_compute; reflexivity. Qed.

(** C2. The roadmap ordering is not defined on every collection.  Under
    the reference runtime the roadmap document
    "deadline: 2030-01-01T00:00:00+00:00" builds an entry whose deadline
    parses to an aware datetime; its sort key subtracts the naive
    [datetime.now()] from it, which raises [TypeError], and the load raises
    with it, whatever the clock reads. *)
Theorem load_roadmap_offset_deadline (clock : nat -> Z) :
  (exists entry,
     map_result (@build_entry cpython_utc) (sorted_paths offset_plan) = Ok [entry]
     /\ @_parse_deadline cpython_utc (deadline entry)
        = Some (Aware (EPOCH + 1893456000000000) 0)
     /\ @_homepage_sort_key cpython_utc entry = Ok (1, 0, Finite 1893456000000000))
  /\ @load_roadmap cpython_utc clock offset_plan = Raise TypeError.
Proof.
  split; [eexists; repeat split; vm_compute; reflexivity|].
  vm_compute; reflexivity.
Qed.

(** * Further properties *)

(** ** Titles *)

Lemma lstrip_nil_all (p : ascii -> bool) (s : str) :
  lstrip_with p s = [] -> forallb p s = true.
Proof.
  induction s as [|c s IH]; cbn [lstrip_with forallb]; [reflexivity|].
  destruct (p c); [exact IH | discriminate].
Qed.

(** What follows the marker of a title line is a trimmed line that is not
    blank. *)
Lemma title_text (l r : str) :
  rstrip l = "#"%char :: " "%char :: r ->
  rstrip r = r /\ forallb isspace r = false.
Proof.
  intros H.
  assert (Hf : rstrip ("#"%char :: " "%char :: r) = "#"%char :: " "%char :: r).
  { rewrite <- H; apply rstrip_fixed. }
  unfold rstrip in *.
  change ("#"%char :: " "%char :: r) with (["#"%char; " "%char] ++ r) in Hf.
  rewrite rstrip_app in Hf.
  destruct (forallb isspace r); [discriminate Hf|].
  split; [|reflexivity].
  now apply app_inv_head in Hf.
Qed.

Section TitleFacts.
Context {runtime : Runtime}.

Lemma parsed_titles (md_text : str) :
  let lines := map rstrip (splitlines md_text) in
  let title : str :=
    match title_line lines with
    | Some line0 =>
        let t := strip (skipn 2 line0) in if truthy t then t else "Untitled"
    | None => "Untitled"
    end in
  parsed_title md_text = Ok title /\ parsed_entry_title md_text = Ok title.
Proof.
  intros lines title; unfold parsed_title, parsed_entry_title.
  unfold _parse_markdown, _parse_roadmap_entry; fold lines.
  subst title; split.
  - destruct (title_line lines) as [line0|];
      match goal with
      | |- context [for_each post_line ?l (?p, ?b)] =>
          destruct (post_loop l p b) as (p' & ->)
      end; reflexivity.
  - destruct (title_line lines) as [line0|];
      match goal with
      | |- context [for_each roadmap_line ?l ?st] =>
          destruct (roadmap_loop l st) as (s' & d' & p' & ->)
      end; reflexivity.
Qed.

(** The text of a title line is not blank, and trimming it only removes
    leading blanks. *)
Lemma title_line_text (md_text : str) (line0 : str) :
  title_line (map rstrip (splitlines md_text)) = Some line0 ->
  strip (skipn 2 line0) = lstrip_with isspace (skipn 2 line0)
  /\ lstrip_with isspace (skipn 2 line0) <> [].
Proof.
  intros E.
  set (lines := map rstrip (splitlines md_text)) in *.
  apply title_line_inv in E as (rest & Hl & Hs).
  apply startswith_app in Hs as [r ->].
  change (lit "# " ++ r) with ("#"%char :: " "%char :: r) in *.
  assert (Hr : exists l, rstrip l = "#"%char :: " "%char :: r).
  { unfold lines in Hl; destruct (splitlines md_text) as [|l ls];
      [discriminate | injection Hl as Hl _; eauto]. }
  destruct Hr as [l Hr]; apply title_text in Hr as [Hr Hb].
  cbn [skipn].
  split; [unfold strip; now rewrite Hr|].
  intros H0; apply lstrip_nil_all in H0; congruence.
Qed.

End TitleFacts.

(** ** The fields of a document as a whole *)

Lemma status_not_deadline (line : str) :
  is_field "status" line = true -> is_field "deadline" line = false.
Proof. unfold is_field; apply startswith_head; discriminate. Qed.

Lemma status_not_progress (line : str) :
  is_field "status" line = true -> is_field "progress" line = false.
Proof. unfold is_field; apply startswith_head; discriminate. Qed.

Lemma deadline_not_status (line : str) :
  is_field "deadline" line = true -> is_field "status" line = false.
Proof. unfold is_field; apply startswith_head; discriminate. Qed.

Lemma deadline_not_progress (line : str) :
  is_field "deadline" line = true -> is_field "progress" line = false.
Proof. unfold is_field; apply startswith_head; discriminate. Qed.

Lemma progress_not_status (line : str) :
  is_field "progress" line = true -> is_field "status" line = false.
Proof. unfold is_field; apply startswith_head; discriminate. Qed.

Lemma progress_not_deadline (line : str) :
  is_field "progress" line = true -> is_field "deadline" line = false.
Proof. unfold is_field; apply startswith_head; discriminate. Qed.

Lemma last_field_snoc (key : str) (lines : list str) (line : str) :
  last_field key (lines ++ [line])
  = if is_field key line && truthy (field_value line)
    then Some (field_value line)
    else last_field key lines.
Proof.
  unfold last_field; rewrite rev_app_distr; cbn [rev app find].
  destruct (is_field key line && truthy (field_value line)); reflexivity.
Qed.

Lemma last_progress_snoc (lines : list str) (line : str) :
  last_progress (lines ++ [line])
  = if is_field "progress" line
    then match code_progress (field_value line) with
         | Some p => Some p
         | None => last_progress lines
         end
    else last_progress lines.
Proof.
  unfold last_progress; rewrite rev_app_distr; cbn [rev app find].
  destruct (is_field "progress" line); cbn [andb]; [|reflexivity].
  destruct (code_progress (field_value line)) eqn:E; [|reflexivity].
  exact E.
Qed.




(** The state the roadmap loop reaches, field by field. *)
Lemma roadmap_loop_last (lines : list str) status deadline progress
      (body_lines : list str) :
  for_each roadmap_line lines (status, deadline, progress, body_lines)
  = Ok (match last_field "status" lines with Some v => v | None => status end,
        match last_field "deadline" lines with Some v => Some v | None => deadline end,
        match last_progress lines with Some p => Some p | None => progress end,
        body_lines ++ filter (fun line => negb (is_roadmap_field line)) lines).
Proof.
  induction lines as [|line lines IH] using rev_ind.
  - cbn; now rewrite app_nil_r.
  - rewrite for_each_app, IH; cbn [bind for_each].
    rewrite !last_field_snoc, last_progress_snoc, filter_app; cbn [filter].
    assert (Hf : is_roadmap_field line
                 = is_field "status" line || is_field "deadline" line
                   || is_field "progress" line) by reflexivity.
    rewrite Hf; clear Hf.
    destruct (is_field "status" line) eqn:Es.
    { rewrite (roadmap_line_status _ _ Es).
      rewrite (status_not_deadline _ Es), (status_not_progress _ Es).
      cbn [bind andb orb negb]; rewrite app_nil_r.
      destruct (truthy (field_value line)); reflexivity. }
    destruct (is_field "deadline" line) eqn:Ed.
    { rewrite (roadmap_line_deadline _ _ Ed), (deadline_not_progress _ Ed).
      cbn [bind andb orb negb]; rewrite app_nil_r.
      destruct (truthy (field_value line)); reflexivity. }
    destruct (is_field "progress" line) eqn:Ep.
    { rewrite (roadmap_line_progress _ _ Ep).
      cbn [bind andb orb negb]; rewrite app_nil_r.
      destruct (code_progress (field_value line)); reflexivity. }
    rewrite roadmap_line_body by (unfold is_roadmap_field; now rewrite Es, Ed, Ep).
    cbn [bind andb orb negb]; now rewrite app_assoc.
Qed.

Section WholeDocument.
Context {runtime : Runtime}.

Lemma post_loop_last (lines : list str) (published : option datetime)
      (body_lines : list str) :
  for_each post_line lines (published, body_lines)
  = Ok (match last_field "date" lines with
        | Some v => fromisoformat v
        | None => published
        end,
        body_lines ++ filter (fun line => negb (is_field "date" line)) lines).
Proof.
  induction lines as [|line lines IH] using rev_ind.
  - cbn; now rewrite app_nil_r.
  - rewrite for_each_app, IH; cbn [bind for_each].
    rewrite last_field_snoc, filter_app; cbn [filter].
    destruct (is_field "date" line) eqn:E.
    + rewrite (post_line_date _ _ _ E); cbn [bind andb negb]; rewrite app_nil_r.
      destruct (truthy (field_value line)); reflexivity.
    + rewrite (post_line_body _ _ _ E); cbn [bind andb negb]; now rewrite app_assoc.
Qed.

(** X2. Each field of a parsed document is decided by one line alone: the
    status is the value of the last status line whose value is not empty
    ("Now" when there is none), the deadline that of the last such deadline
    line, the progress that of the last progress line whose value is an
    integer in [0,100], and [published_at] is what [fromisoformat] makes of
    the value of the last date line whose value is not empty.  The lines
    are those after the title line; they may stand anywhere among the body
    lines. *)
Theorem fields_decided_by_last_line (md_text : str) :
  let body := document_body (map rstrip (splitlines md_text)) in
  parsed_status md_text
  = Ok (match last_field "status" body with Some v => v | None => lit "Now" end)
  /\ parsed_deadline md_text = Ok (last_field "deadline" body)
  /\ parsed_progress md_text = Ok (last_progress body)
  /\ parsed_published md_text
     = Ok (match last_field "date" body with
           | Some v => fromisoformat v
           | None => None
           end).
Proof.
  intros body; subst body.
  unfold parsed_status, parsed_deadline, parsed_progress, parsed_published.
  unfold _parse_roadmap_entry, _parse_markdown, document_body.
  set (lines := map rstrip (splitlines md_text)).
  destruct (title_line lines) as [line0|]; cbn [skipn];
    rewrite roadmap_loop_last, post_loop_last; cbn [bind];
    repeat split; try reflexivity;
    try (destruct (last_field "deadline" _); reflexivity);
    try (destruct (last_progress _); reflexivity).
Qed.

End WholeDocument.

(** ** The excerpt of a body *)

Lemma lstrip_head (p : ascii -> bool) (s : str) :
  match lstrip_with p s with
  | [] => True
  | c :: _ => p c = false
  end.
Proof.
  induction s as [|c s IH]; cbn [lstrip_with]; [exact I|].
  destruct (p c) eqn:E; [exact IH | exact E].
Qed.

Lemma lstrip_split (p : ascii -> bool) (s : str) :
  exists blanks, s = blanks ++ lstrip_with p s /\ forallb p blanks = true.
Proof.
  induction s as [|c s (blanks & IH & Hb)]; cbn [lstrip_with].
  - now exists [].
  - destruct (p c) eqn:E.
    + exists (c :: blanks); cbn [app forallb]; rewrite E, Hb; split; [now f_equal|reflexivity].
    + now exists [].
Qed.

Lemma lstrip_all_nil (p : ascii -> bool) (s : str) :
  forallb p (lstrip_with p s) = true -> lstrip_with p s = [].
Proof.
  pose proof (lstrip_head p s) as H.
  destruct (lstrip_with p s) as [|c t]; [reflexivity|].
  cbn [forallb]; rewrite H; discriminate.
Qed.

(** A text is blank exactly when trimming it leaves nothing. *)
Lemma strip_truthy (s : str) : truthy (strip s) = negb (forallb isspace s).
Proof.
  destruct (forallb isspace s) eqn:E.
  - now rewrite strip_blank.
  - cbn [negb]; destruct (strip s) as [|c t] eqn:Es; [|reflexivity].
    exfalso; unfold strip in Es; apply lstrip_nil_all in Es.
    unfold rstrip, rstrip_with in Es; rewrite forallb_rev in Es.
    apply lstrip_all_nil, lstrip_nil_all in Es.
    rewrite forallb_rev in Es; congruence.
Qed.

(** Trimming a trimmed text changes nothing. *)
Lemma strip_fixed (s : str) : strip (strip s) = strip s.
Proof.
  unfold strip at 1.
  assert (H : rstrip (strip s) = strip s).
  { unfold strip.
    assert (Hx : rstrip_with isspace (rstrip s) = rstrip s) by apply rstrip_fixed.
    destruct (lstrip_split isspace (rstrip s)) as (blanks & Hs & Hb).
    pose proof (lstrip_all_nil isspace (rstrip s)) as Hn.
    remember (lstrip_with isspace (rstrip s)) as y eqn:Ey.
    clear Ey; rewrite Hs in Hx; unfold rstrip at 1.
    rewrite rstrip_app in Hx.
    destruct (forallb isspace y) eqn:E.
    - rewrite (Hn eq_refl); reflexivity.
    - now apply app_inv_head in Hx. }
  rewrite H; apply lstrip_fixed.
Qed.

Lemma lstrip_map (p : ascii -> bool) (f : ascii -> ascii) (s : str) :
  (forall c, p (f c) = p c) ->
  lstrip_with p (map f s) = map f (lstrip_with p s).
Proof.
  intros Hf; induction s as [|c s IH]; cbn [map lstrip_with]; [reflexivity|].
  rewrite Hf; destruct (p c); [exact IH | reflexivity].
Qed.

Lemma strip_map (f : ascii -> ascii) (s : str) :
  (forall c, isspace (f c) = isspace c) ->
  strip (map f s) = map f (strip s).
Proof.
  intros Hf; unfold strip, rstrip, rstrip_with.
  rewrite <- map_rev, (lstrip_map _ _ _ Hf), <- map_rev.
  apply lstrip_map, Hf.
Qed.

Lemma swap_newline_space (c : ascii) :
  isspace (swap_char "010" " " c) = isspace c.
Proof.
  unfold swap_char; destruct (Ascii.eqb_spec c "010"); [subst; reflexivity | reflexivity].
Qed.

(** When every piece of a split is blank, so is the text, for a blank
    separator. *)
Lemma split_max_blank (n : nat) (sep s : str) :
  forallb isspace sep = true ->
  forallb (fun piece => forallb isspace piece) (split_max n sep s) = true ->
  forallb isspace s = true.
Proof.
  intros Hsep; revert s; induction n as [|n IH]; intros s; cbn [split_max].
  - cbn [forallb]; now rewrite andb_true_r.
  - destruct (partition sep s) as [[before after]|] eqn:E.
    + apply partition_some in E; subst s.
      cbn [forallb]; intros H; apply andb_prop in H as [Hb Ha].
      rewrite !forallb_app, Hb, Hsep; cbn [andb]; now apply IH.
    + cbn [forallb]; now rewrite andb_true_r.
Qed.

Lemma find_none_forallb {X : Type} (p q : X -> bool) (l : list X) :
  (forall x, p x = false -> q x = true) ->
  find p l = None -> forallb q l = true.
Proof.
  intros Hq; induction l as [|x l IH]; cbn [find forallb]; [reflexivity|].
  destruct (p x) eqn:E; [discriminate|].
  intros H; rewrite (Hq x E); exact (IH H).
Qed.

(** The excerpt is empty exactly when the body is blank. *)
Lemma excerpt_truthy (body_text : str) :
  truthy (_extract_excerpt body_text) = negb (forallb isspace body_text).
Proof.
  unfold _extract_excerpt; rewrite first_paragraph_find.
  change (lit " ") with [" "%char]; change NL with ["010"%char].
  destruct (find _ _) as [paragraph|] eqn:E.
  - rewrite replace_char.
    apply find_some in E as [Hin Ht].
    destruct (forallb isspace body_text) eqn:Hb.
    + exfalso.
      assert (Hp : Forall (Forall (fun c => isspace c = true))
                     (split (["010"%char] ++ ["010"%char]) body_text)).
      { apply split_max_Forall, forallb_Forall_true, Hb. }
      rewrite Forall_forall in Hp; specialize (Hp _ Hin).
      apply forallb_Forall_true in Hp.
      rewrite strip_truthy, Hp in Ht; discriminate.
    + cbn [negb]; destruct (strip paragraph); [discriminate | reflexivity].
  - cbn [truthy]; symmetry; apply negb_false_iff.
    apply (split_max_blank (length body_text) (["010"%char] ++ ["010"%char]));
      [reflexivity|].
    eapply find_none_forallb; [|exact E].
    intros piece; cbn beta; rewrite strip_truthy; apply negb_false_iff.
Qed.

(** X4. The excerpt of a body is empty exactly when the body is blank, and
    it is always trimmed: it neither starts nor ends with whitespace.  So a
    body with any visible character has an excerpt that shows one. *)
Theorem excerpt_of_body (body_text : str) :
  truthy (_extract_excerpt body_text) = negb (forallb isspace body_text)
  /\ strip (_extract_excerpt body_text) = _extract_excerpt body_text.
Proof.
  split; [apply excerpt_truthy|].
  unfold _extract_excerpt; rewrite first_paragraph_find.
  change (lit " ") with [" "%char]; change NL with ["010"%char].
  destruct (find _ _) as [paragraph|]; [|reflexivity].
  rewrite replace_char, strip_map by apply swap_newline_space.
  now rewrite strip_fixed.
Qed.

(** ** Ranking by keys that may fail *)

Lemma StronglySorted_map_snd {K A : Type} (Q : K * A -> K * A -> Prop)
      (S : K * A -> Prop) (R : A -> A -> Prop) (d : list (K * A)) :
  (forall a b, S a -> S b -> Q a b -> R (snd a) (snd b)) ->
  Forall S d -> StronglySorted Q d -> StronglySorted R (map snd d).
Proof.
  intros HR HS Hs; induction Hs as [|x l Hs IH Hf]; cbn [map]; constructor;
    inversion HS as [|? ? Hx Hl]; subst.
  - now apply IH.
  - rewrite Forall_map; rewrite Forall_forall in *.
    intros y Hy; apply HR; auto.
Qed.

Lemma Forall2_combine {K A : Type} (P : A -> K -> Prop) (items : list A)
      (keys : list K) :
  Forall2 P items keys ->
  Forall (fun kx => P (snd kx) (fst kx)) (combine keys items).
Proof. induction 1; cbn [combine]; constructor; auto. Qed.

Lemma Forall2_in_r {X Y : Type} (P : X -> Y -> Prop) (l : list X) (l' : list Y) (y : Y) :
  Forall2 P l l' -> In y l' -> exists x, In x l /\ P x y.
Proof.
  induction 1 as [|x y' l l' Hp _ IH]; cbn [In]; [contradiction|].
  intros [<-|Hy]; [now exists x; auto|].
  destruct (IH Hy) as (x' & Hx & Hp'); exists x'; auto.
Qed.

(** Sorting by keys computed beforehand puts the items in the order of
    their keys. *)
Lemma sort_with_keys_sorted {K A : Type} (ltb : K -> K -> bool)
      (P : A -> K -> Prop) (R : A -> A -> Prop) (keys : list K) (items : list A) :
  (forall a b, ltb a b = true -> ltb b a = false) ->
  (forall a b c, ltb a b = false -> ltb b c = false -> ltb a c = false) ->
  Forall2 P items keys ->
  (forall x k y k', P x k -> P y k' -> ltb k' k = false -> R x y) ->
  StronglySorted R (sort_with_keys ltb false keys items).
Proof.
  intros asym ntrans HP HR; unfold sort_with_keys.
  apply (StronglySorted_map_snd (in_order ltb) (fun kx => P (snd kx) (fst kx))).
  - intros a b Ha Hb Hab; exact (HR _ _ _ _ Ha Hb Hab).
  - eapply Permutation_Forall;
      [symmetry; apply sort_decorated_perm | apply Forall2_combine, HP].
  - exact (sort_decorated_sorted ltb asym ntrans false _).
Qed.

Lemma StronglySorted_firstn {X : Type} (R : X -> X -> Prop) (n : nat) (l : list X) :
  StronglySorted R l ->
  StronglySorted R (firstn n l)
  /\ forall x y, In x (firstn n l) -> In y (skipn n l) -> R x y.
Proof.
  intros H; rewrite <- (firstn_skipn n l) in H.
  apply StronglySorted_app_inv in H as (H1 & _ & H3); auto.
Qed.

Lemma In_firstn {X : Type} (n : nat) (l : list X) (x : X) :
  In x (firstn n l) -> In x l.
Proof.
  intros H; rewrite <- (firstn_skipn n l); apply in_or_app; now left.
Qed.

Lemma map_result_ok_in {A B : Type} (f : A -> result B) (l : list A) :
  (forall x, In x l -> exists y, f x = Ok y) ->
  exists out, map_result f l = Ok out.
Proof.
  induction l as [|x l IH]; intros H; cbn [map_result].
  - now exists [].
  - destruct (H x (or_introl eq_refl)) as [y ->].
    destruct IH as [out ->]; [intros; apply H; now right|].
    now eexists.
Qed.

Lemma key3_coarse (a b : Z * Z * float) :
  key3_ltb b a = false ->
  fst (fst a) <= fst (fst b)
  /\ (fst (fst a) = fst (fst b) -> snd (fst a) <= snd (fst b)).
Proof.
  destruct a as [[a1 a2] a3], b as [[b1 b2] b3]; cbn [key3_ltb fst snd].
  destruct (Z.eqb_spec b1 a1); cbn [negb].
  - destruct (Z.eqb_spec b2 a2); cbn [negb]; [lia|].
    intros H; apply Z.ltb_ge in H; lia.
  - intros H; apply Z.ltb_ge in H; lia.
Qed.

Lemma key4_coarse (a b : Z * Z * float * float) :
  key4_ltb b a = false ->
  fst (fst (fst a)) <= fst (fst (fst b))
  /\ (fst (fst (fst a)) = fst (fst (fst b)) ->
      snd (fst (fst a)) <= snd (fst (fst b))).
Proof.
  destruct a as [[[a1 a2] a3] a4], b as [[[b1 b2] b3] b4]; cbn [key4_ltb fst snd].
  destruct (Z.eqb_spec b1 a1); cbn [negb].
  - destruct (Z.eqb_spec b2 a2); cbn [negb]; [lia|].
    intros H; apply Z.ltb_ge in H; lia.
  - intros H; apply Z.ltb_ge in H; lia.
Qed.

Section RankingFacts.
Context {runtime : Runtime}.

Lemma homepage_key_inv (entry : RoadmapEntry) (k : Z * Z * float) :
  _homepage_sort_key entry = Ok k ->
  fst (fst k) = - shown_progress entry
  /\ snd (fst k) = if dated entry then 0 else 1.
Proof.
  unfold _homepage_sort_key, dated, shown_progress.
  destruct (_parse_deadline (deadline entry)) as [dt|].
  - unfold timestamp_float; destruct (timestamp dt); cbn [bind]; [|discriminate].
    destruct dt; cbn [bind]; intros H; injection H as <-; auto.
  - intros H; injection H as <-; auto.
Qed.

Lemma homepage_key_ok (entry : RoadmapEntry) :
  presentable entry -> exists k, _homepage_sort_key entry = Ok k.
Proof.
  unfold presentable, _homepage_sort_key; intros H.
  destruct (_parse_deadline (deadline entry)) as [dt|]; [|now eexists].
  destruct (H dt eq_refl) as [ts Hts]; unfold timestamp_float; rewrite Hts.
  cbn [bind]; destruct dt; now eexists.
Qed.

(** X5. When the timestamp of the deadline of every candidate can be
    computed, the homepage selection succeeds and returns the top of the
    candidates: at most three entries, as many as there are candidates up
    to three, each with a progress below 100, in descending order of
    progress with the entries whose deadline is read before the others of
    the same progress; no candidate left out has more progress than one
    that is shown. *)
Theorem homepage_selection_top (entries : list RoadmapEntry) :
  (forall entry, In entry entries -> candidate entry = true -> presentable entry) ->
  exists selected,
    _select_homepage_entries entries = Ok selected
    /\ length selected = Nat.min 3 (length (filter candidate entries))
    /\ (forall entry,
          In entry selected ->
          In entry entries /\ exists p, progress entry = Some p /\ p < 100)
    /\ StronglySorted
         (fun a b =>
            shown_progress b <= shown_progress a
            /\ (shown_progress b = shown_progress a ->
                dated b = true -> dated a = true))
         selected
    /\ (forall shown other,
          In shown selected -> In other entries -> candidate other = true ->
          ~ In other selected ->
          shown_progress other <= shown_progress shown).
Proof.
  intros Hp.
  unfold _select_homepage_entries.
  change (filter _ entries) with (filter candidate entries).
  set (candidates := filter candidate entries).
  destruct (map_result_ok_in _homepage_sort_key candidates) as [keys Hk].
  { intros e He; apply filter_In in He as [He Hc].
    apply homepage_key_ok; auto. }
  rewrite Hk; cbn [bind].
  set (sorted := sort_with_keys key3_ltb false keys candidates).
  assert (Hperm : Permutation sorted candidates).
  { apply sort_with_keys_perm; now apply map_result_length in Hk. }
  assert (Hsorted :
            StronglySorted
              (fun a b =>
                 shown_progress b <= shown_progress a
                 /\ (shown_progress b = shown_progress a ->
                     dated b = true -> dated a = true))
              sorted).
  { apply (sort_with_keys_sorted key3_ltb
             (fun e k => _homepage_sort_key e = Ok k));
      [apply key3_ltb_asym | apply key3_ltb_ntrans
      | now apply map_result_Forall2 |].
    intros x k y k' Hx Hy Hlt.
    apply homepage_key_inv in Hx as [Hx1 Hx2], Hy as [Hy1 Hy2].
    apply key3_coarse in Hlt as [H1 H2].
    rewrite Hx1, Hy1 in H1, H2; rewrite Hx2, Hy2 in H2.
    split; [lia|].
    intros He Hd; rewrite Hd in H2.
    destruct (dated x); [reflexivity | lia]. }
  apply (StronglySorted_firstn _ 3) in Hsorted as [Hs Htop].
  exists (firstn 3 sorted); split; [reflexivity|].
  split.
  { rewrite length_firstn, (Permutation_length Hperm); reflexivity. }
  split.
  { intros e He; apply In_firstn in He.
    apply (Permutation_in _ Hperm), filter_In in He as [He Hc].
    split; [exact He|].
    unfold candidate in Hc; destruct (progress e) as [p|]; [|discriminate].
    exists p; split; [reflexivity | now apply Z.ltb_lt]. }
  split; [exact Hs|].
  intros shown other Hshown Hin Hc Hout.
  assert (Ho : In other sorted).
  { apply (Permutation_in _ (Permutation_sym Hperm)), filter_In; auto. }
  rewrite <- (firstn_skipn 3 sorted) in Ho; apply in_app_or in Ho as [Ho|Ho];
    [contradiction|].
  apply (Htop shown other Hshown Ho).
Qed.

Lemma roadmap_key_ok (clock : nat -> Z) (entry : RoadmapEntry) (tick : nat) :
  sortable entry ->
  exists distance ts tick',
    _roadmap_sort_key clock entry tick
    = Ok ((_status_rank (status entry), (if dated entry then 0 else 1),
           distance, ts), tick').
Proof.
  intros [[ts Hts] Hna]; unfold _roadmap_sort_key, dated.
  destruct (_parse_deadline (deadline entry)) as [[wall|wall utcoffset]|].
  - cbn [datetime_sub_seconds bind]; rewrite Hts; cbn [bind]; now eexists _, _, _.
  - now destruct (Hna wall utcoffset).
  - rewrite Hts; cbn [bind]; now eexists _, _, _.
Qed.

Lemma roadmap_keys_ok (clock : nat -> Z) (entries : list RoadmapEntry) (tick : nat) :
  Forall sortable entries ->
  exists keys,
    roadmap_keys clock entries tick = Ok keys
    /\ Forall2 (fun entry k =>
                  fst (fst (fst k)) = _status_rank (status entry)
                  /\ snd (fst (fst k)) = if dated entry then 0 else 1)
         entries keys.
Proof.
  intros H; revert tick; induction H as [|entry entries He _ IH]; intros tick;
    cbn [roadmap_keys].
  - exists []; split; [reflexivity | constructor].
  - destruct (roadmap_key_ok clock entry tick He) as (distance & ts & tick' & ->).
    cbn [bind snd fst].
    destruct (IH tick') as (keys & -> & Hk); cbn [bind].
    eexists; split; [reflexivity|].
    constructor; [split; reflexivity | exact Hk].
Qed.

(** X6. When every entry built from the directory is sortable (a deadline
    that is read carries no UTC offset, and [updated_at] has a timestamp),
    loading the roadmap succeeds and returns the entries built from the
    files, each once, in ascending order of status rank: Now, Next, Later,
    Done; among the entries of one rank those whose deadline is read come
    before the others. *)
Theorem roadmap_by_rank (clock : nat -> Z) (glob : list md_file) :
  (forall md_path entry,
     In md_path glob -> build_entry md_path = Ok entry -> sortable entry) ->
  exists built entries,
    map_result build_entry (sorted_paths glob) = Ok built
    /\ load_roadmap clock glob = Ok entries
    /\ Permutation entries built
    /\ StronglySorted
         (fun a b =>
            _status_rank (status a) <= _status_rank (status b)
            /\ (_status_rank (status a) = _status_rank (status b) ->
                dated b = true -> dated a = true))
         entries.
Proof.
  intros Hs.
  destruct (map_result_ok build_entry (fun _ => True) (sorted_paths glob))
    as (built & Hb & _).
  { intros md_path; destruct (build_entry_known md_path) as (e & He & _); eauto. }
  assert (Hsortable : Forall sortable built).
  { apply Forall_forall; intros e He.
    destruct (Forall2_in_r _ _ _ e (map_result_Forall2 _ _ _ Hb) He)
      as (md_path & Hin & Hbuild).
    apply (Hs md_path e); [|exact Hbuild].
    apply (Permutation_in _ (sorted_paths_perm glob) Hin). }
  destruct (roadmap_keys_ok clock built 0 Hsortable) as (keys & Hk & Hkeys).
  exists built, (sort_with_keys key4_ltb false keys built).
  split; [exact Hb|].
  split; [unfold load_roadmap; rewrite Hb; cbn [bind]; now rewrite Hk|].
  split.
  { apply sort_with_keys_perm; now apply roadmap_keys_length in Hk. }
  apply (sort_with_keys_sorted key4_ltb
           (fun entry k =>
              fst (fst (fst k)) = _status_rank (status entry)
              /\ snd (fst (fst k)) = if dated entry then 0 else 1));
    [apply key4_ltb_asym | apply key4_ltb_ntrans | exact Hkeys |].
  intros x k y k' [Hx1 Hx2] [Hy1 Hy2] Hlt.
  apply key4_coarse in Hlt as [H1 H2].
  rewrite Hx1, Hy1 in H1, H2; rewrite Hx2, Hy2 in H2.
  split; [lia|].
  intros He Hd; rewrite Hd in H2.
  destruct (dated x); [reflexivity | specialize (H2 He); lia].
Qed.

End RankingFacts.

Lemma homepage_selection_top_witness :
  exists selected,
    @_select_homepage_entries cpython_utc homepage_entries = Ok selected
    /\ length selected = Nat.min 3 (length (filter candidate homepage_entries))
    /\ (forall entry,
          In entry selected ->
          In entry homepage_entries /\ exists p, progress entry = Some p /\ p < 100)
    /\ StronglySorted
         (fun a b =>
            shown_progress b <= shown_progress a
            /\ (shown_progress b = shown_progress a ->
                @dated cpython_utc b = true -> @dated cpython_utc a = true))
         selected
    /\ (forall shown other,
          In shown selected -> In other homepage_entries -> candidate other = true ->
          ~ In other selected ->
          shown_progress other <= shown_progress shown).
Proof.
  apply (@homepage_selection_top cpython_utc homepage_entries).
  intros entry Hin _ deadline_dt Hd.
  cbn [homepage_entries In] in Hin.
  repeat (destruct Hin as [<-|Hin];
          [vm_compute in Hd; try discriminate Hd; injection Hd as <-;
           eexists; vm_compute; reflexivity|]).
  contradiction.
Defined.

Lemma roadmap_by_rank_witness :
  exists built entries,
    map_result (@build_entry cpython_utc) (sorted_paths four_plans) = Ok built
    /\ @load_roadmap cpython_utc (fun _ => EPOCH + 1700000000000000) four_plans
       = Ok entries
    /\ Permutation entries built
    /\ StronglySorted
         (fun a b =>
            _status_rank (status a) <= _status_rank (status b)
            /\ (_status_rank (status a) = _status_rank (status b) ->
                @dated cpython_utc b = true -> @dated cpython_utc a = true))
         entries.
Proof.
  apply (@roadmap_by_rank cpython_utc (fun _ => EPOCH + 1700000000000000) four_plans).
  intros md_path entry Hin Hb.
  cbn [four_plans In] in Hin.
  repeat (destruct Hin as [<-|Hin];
          [vm_compute in Hb; injection Hb as <-;
           split; [eexists; vm_compute; reflexivity
                  | intros wall utcoffset; vm_compute; discriminate]|]).
  contradiction.
Defined.

(** ** The pages of single documents *)

Lemma str_eqb_eq (a b : str) : str_eqb a b = true <-> a = b.
Proof.
  unfold str_eqb; destruct (list_eq_dec ascii_dec a b); split; auto; discriminate.
Qed.

Lemma stem_md (base : str) : base <> [] -> stem (base ++ ".md") = base.
Proof.
  intros Hb; unfold stem.
  change (lit ".md") with ["."%char; "m"%char; "d"%char].
  rewrite rev_app_distr; cbn [rev app].
  change (lit ".") with ["."%char].
  rewrite !partition_char_cons; cbn [Ascii.eqb Bool.eqb].
  destruct (rev base) as [|c r] eqn:E.
  - apply (f_equal (@rev ascii)) in E; rewrite rev_involutive in E; contradiction.
  - cbn [truthy andb]; now rewrite <- E, rev_involutive.
Qed.

Lemma stem_injective (a b : str) :
  md_name a -> md_name b -> stem a = stem b -> a = b.
Proof.
  intros (x & Hx & ->) (y & Hy & ->); rewrite !stem_md by assumption.
  now intros ->.
Qed.

Lemma NoDup_map_injective {X Y : Type} (f : X -> Y) (l : list X) (x y : X) :
  NoDup (map f l) -> In x l -> In y l -> f x = f y -> x = y.
Proof.
  induction l as [|z l IH]; cbn [map In]; [contradiction|].
  intros Hn; inversion Hn as [|? ? Hz Hl]; subst.
  intros [->|Hx] [->|Hy] E; auto.
  - exfalso; apply Hz; rewrite E; now apply in_map.
  - exfalso; apply Hz; rewrite <- E; now apply in_map.
Qed.

Lemma find_exists {X : Type} (p : X -> bool) (l : list X) (x : X) :
  In x l -> p x = true -> exists y, find p l = Some y.
Proof.
  induction l as [|z l IH]; cbn [In find]; [contradiction|].
  intros [->|Hx] Hp; [rewrite Hp; eauto|].
  destruct (p z); eauto.
Qed.

Lemma find_unique {X : Type} (p : X -> bool) (l : list X) (x : X) :
  In x l -> p x = true -> (forall y, In y l -> p y = true -> y = x) ->
  find p l = Some x.
Proof.
  intros Hx Hp Hu; destruct (find_exists p l x Hx Hp) as [y Hy].
  rewrite Hy; apply find_some in Hy as [Hin Hpy]; f_equal; auto.
Qed.


Lemma Forall2_in_l {X Y : Type} (P : X -> Y -> Prop) (l : list X) (l' : list Y) (x : X) :
  Forall2 P l l' -> In x l -> exists y, In y l' /\ P x y.
Proof.
  induction 1 as [|x' y l l' Hp _ IH]; cbn [In]; [contradiction|].
  intros [<-|Hx]; [now exists y; auto|].
  destruct (IH Hx) as (y' & Hy & Hp'); exists y'; auto.
Qed.

Section PageFacts.
Context {runtime : Runtime}.

Lemma build_post_slug (md_path : md_file) (post : Post) :
  build_post md_path = Ok post -> post_slug post = stem (name md_path).
Proof.
  unfold build_post; intros H; apply bind_ok in H as ([[[t x] h] p] & _ & H).
  now injection H as <-.
Qed.

Lemma build_entry_slug (md_path : md_file) (entry : RoadmapEntry) :
  build_entry md_path = Ok entry -> slug entry = stem (name md_path).
Proof.
  unfold build_entry; intros H.
  apply bind_ok in H as ([[[[[t s] h] d] p] x] & _ & H).
  now injection H as <-.
Qed.

(** The posts loaded are those built from the files. *)
Lemma load_posts_built (blogs : list md_file) (posts : list Post) :
  load_posts blogs = Ok posts ->
  (forall post, In post posts ->
                exists md_path, In md_path blogs /\ build_post md_path = Ok post)
  /\ (forall md_path, In md_path blogs ->
                      exists post, In post posts /\ build_post md_path = Ok post).
Proof.
  unfold load_posts; intros H; apply bind_ok in H as (built & Hb & H).
  injection H as <-.
  pose proof (map_result_Forall2 _ _ _ Hb) as Hf.
  pose proof (sort_by_key_perm Z.ltb post_updated_at true built) as Hp.
  split.
  - intros post Hin; apply (Permutation_in _ Hp) in Hin.
    destruct (Forall2_in_r _ _ _ _ Hf Hin) as (md_path & Hm & Hbuild).
    exists md_path; split; [|exact Hbuild].
    apply (Permutation_in _ (sorted_paths_perm blogs) Hm).
  - intros md_path Hin.
    apply (Permutation_in _ (Permutation_sym (sorted_paths_perm blogs))) in Hin.
    destruct (Forall2_in_l _ _ _ _ Hf Hin) as (post & Hpost & Hbuild).
    exists post; split; [|exact Hbuild].
    apply (Permutation_in _ (Permutation_sym Hp) Hpost).
Qed.

(** The entries loaded are those built from the files. *)
Lemma load_roadmap_built (clock : nat -> Z) (roadmap : list md_file)
      (entries : list RoadmapEntry) :
  load_roadmap clock roadmap = Ok entries ->
  (forall entry, In entry entries ->
                 exists md_path, In md_path roadmap /\ build_entry md_path = Ok entry)
  /\ (forall md_path, In md_path roadmap ->
                      exists entry, In entry entries /\ build_entry md_path = Ok entry).
Proof.
  unfold load_roadmap; intros H; apply bind_ok in H as (built & Hb & H).
  apply bind_ok in H as (keys & Hk & H); injection H as <-.
  pose proof (map_result_Forall2 _ _ _ Hb) as Hf.
  assert (Hp : Permutation (sort_with_keys key4_ltb false keys built) built).
  { apply sort_with_keys_perm; now apply roadmap_keys_length in Hk. }
  split.
  - intros entry Hin; apply (Permutation_in _ Hp) in Hin.
    destruct (Forall2_in_r _ _ _ _ Hf Hin) as (md_path & Hm & Hbuild).
    exists md_path; split; [|exact Hbuild].
    apply (Permutation_in _ (sorted_paths_perm roadmap) Hm).
  - intros md_path Hin.
    apply (Permutation_in _ (Permutation_sym (sorted_paths_perm roadmap))) in Hin.
    destruct (Forall2_in_l _ _ _ _ Hf Hin) as (entry & He & Hbuild).
    exists entry; split; [|exact Hbuild].
    apply (Permutation_in _ (Permutation_sym Hp) He).
Qed.

(** X8. In a directory of files named [<base>.md] with a base that is not
    empty, no two of one name, every file is served at its own slug: the
    post page of the stem of a file shows the post built from that file,
    and so does the roadmap page for the entry, when the roadmap loads.
    The stem of [<base>.md] is [<base>]. *)
Theorem file_served_at_its_stem (clock : nat -> Z) (glob : list md_file)
        (md_path : md_file) :
  NoDup (map name glob) ->
  Forall (fun file => md_name (name file)) glob ->
  In md_path glob ->
  (forall base, name md_path = base ++ ".md" -> stem (name md_path) = base)
  /\ (exists post,
        build_post md_path = Ok post
        /\ Routes.venting_post glob (stem (name md_path)) = Ok (venting_post_html post))
  /\ (forall entries,
        load_roadmap clock glob = Ok entries ->
        exists entry,
          build_entry md_path = Ok entry
          /\ Routes.roadmap_post clock glob (stem (name md_path))
             = Ok (roadmap_post_html entry)).
Proof.
  intros Hn Hm Hin.
  rewrite Forall_forall in Hm.
  assert (Hsame : forall file, In file glob ->
                               stem (name file) = stem (name md_path) ->
                               file = md_path).
  { intros file Hf Hs.
    apply (NoDup_map_injective name glob); try assumption.
    apply stem_injective; auto. }
  split; [|split].
  - intros base Hb.
    destruct (Hm md_path Hin) as (base' & Hne & Hb').
    assert (base = base') by (rewrite Hb in Hb'; now apply app_inv_tail in Hb').
    subst base'; rewrite Hb; now apply stem_md.
  - unfold Routes.venting_post.
    destruct (load_posts_total glob) as [posts Hl]; rewrite Hl; cbn [bind].
    apply load_posts_built in Hl as [Hfrom Hto].
    destruct (Hto md_path Hin) as (post & Hp & Hb).
    exists post; split; [exact Hb|].
    rewrite (find_unique _ posts post); [reflexivity | exact Hp | |].
    + apply str_eqb_eq, (build_post_slug _ _ Hb).
    + intros y Hy Hs; apply str_eqb_eq in Hs.
      destruct (Hfrom y Hy) as (file & Hf & Hby).
      rewrite (build_post_slug _ _ Hby) in Hs.
      rewrite (Hsame file Hf Hs) in Hby; congruence.
  - intros entries Hl.
    unfold Routes.roadmap_post; rewrite Hl; cbn [bind].
    apply load_roadmap_built in Hl as [Hfrom Hto].
    destruct (Hto md_path Hin) as (entry & Hp & Hb).
    exists entry; split; [exact Hb|].
    rewrite (find_unique _ entries entry); [reflexivity | exact Hp | |].
    + apply str_eqb_eq, (build_entry_slug _ _ Hb).
    + intros y Hy Hs; apply str_eqb_eq in Hs.
      destruct (Hfrom y Hy) as (file & Hf & Hby).
      rewrite (build_entry_slug _ _ Hby) in Hs.
      rewrite (Hsame file Hf Hs) in Hby; congruence.
Qed.

End PageFacts.

Lemma file_served_at_its_stem_witness :
  (forall base, lit "notes.v2.md" = base ++ ".md" -> stem "notes.v2.md" = base)
  /\ (exists post,
        @build_post cpython_utc (nth 1 two_posts (Build_md_file [] [] 0)) = Ok post
        /\ @Routes.venting_post cpython_utc two_posts (stem "notes.v2.md")
           = Ok (venting_post_html post))
  /\ (forall entries,
        @load_roadmap cpython_utc (fun _ => 0) two_posts = Ok entries ->
        exists entry,
          @build_entry cpython_utc (nth 1 two_posts (Build_md_file [] [] 0)) = Ok entry
          /\ @Routes.roadmap_post cpython_utc (fun _ => 0) two_posts (stem "notes.v2.md")
             = Ok (roadmap_post_html entry)).
Proof.
  apply (@file_served_at_its_stem cpython_utc (fun _ => 0) two_posts
           (nth 1 two_posts (Build_md_file [] [] 0))).
  - cbn [two_posts map name]; repeat constructor; cbn [In].
    + intros [H|[]]; discriminate H.
    + intros [].
  - repeat constructor;
      [exists (lit "hello") | exists (lit "notes.v2")]; split;
        [discriminate | reflexivity | discriminate | reflexivity].
  - cbn [two_posts nth In]; auto.
Defined.

(** ** The homepage *)

Section HomepageFacts.
Context {runtime : Runtime}.


End HomepageFacts.

(** ** The address of the client *)

Lemma split_first (sep s : str) :
  s <> [] ->
  index (split sep s) 0
  = Ok (match partition sep s with
        | Some (first, _) => first
        | None => s
        end).
Proof.
  intros Hs; unfold split; destruct s as [|c s]; [contradiction|].
  cbn [length split_max].
  destruct (partition sep (c :: s)) as [[first rest]|]; reflexivity.
Qed.

Lemma In_lstrip (p : ascii -> bool) (c : ascii) (s : str) :
  In c (lstrip_with p s) -> In c s.
Proof.
  induction s as [|x s IH]; cbn [lstrip_with]; [auto|].
  destruct (p x); [right; auto | auto].
Qed.

Lemma In_strip (c : ascii) (s : str) : In c (strip s) -> In c s.
Proof.
  unfold strip, rstrip, rstrip_with; intros H.
  apply In_lstrip, in_rev, In_lstrip, in_rev in H; exact H.
Qed.

(** X10. The address logged for a request never fails to compute.  When
    [X-Forwarded-For] is present and not empty it is the text before the
    first comma of that header, trimmed, whatever the other headers and the
    peer address are: it holds no comma, and it is empty exactly when that
    text is blank.  Otherwise it is [X-Real-IP] trimmed, when that header is
    present and not empty; otherwise the peer address, or "unknown" when
    there is none or it is empty. *)
Theorem client_ip_precedence (r : request) :
  exists ip,
    _get_client_ip r = Ok ip
    /\ match headers r "X-Forwarded-For" with
       | Some (c :: rest) =>
           let first :=
             match partition "," (c :: rest) with
             | Some (first, _) => first
             | None => c :: rest
             end in
           ip = strip first
           /\ ~ In ","%char ip
           /\ truthy ip = negb (forallb isspace first)
       | _ =>
           match headers r "X-Real-IP" with
           | Some (c :: rest) => ip = strip (c :: rest)
           | _ =>
               match remote_addr r with
               | Some (c :: rest) => ip = c :: rest
               | _ => ip = "unknown"
               end
           end
       end.
Proof.
  unfold _get_client_ip.
  assert (Hrest :
            exists ip,
              (let real_ip := headers r "X-Real-IP" in
               if truthy_option real_ip then Ok (strip (get_or real_ip ""))
               else Ok (get_or (or_else (remote_addr r) (Some (lit "unknown")))
                          "unknown")) = Ok ip
              /\ match headers r "X-Real-IP" with
                 | Some (c :: rest) => ip = strip (c :: rest)
                 | _ =>
                     match remote_addr r with
                     | Some (c :: rest) => ip = c :: rest
                     | _ => ip = "unknown"
                     end
                 end).
  { cbn zeta; destruct (headers r "X-Real-IP") as [[|c rest]|];
      cbn [truthy_option truthy get_or]; try (eexists; split; reflexivity).
    all: destruct (remote_addr r) as [[|c rest]|];
      eexists; split; reflexivity. }
  destruct (headers r "X-Forwarded-For") as [[|c rest]|];
    cbn [get_or truthy]; try exact Hrest.
  change (lit ",") with [","%char].
  rewrite split_first by discriminate; cbn [bind].
  eexists; split; [reflexivity|]; cbn zeta.
  split; [reflexivity|]; split; [|apply strip_truthy].
  intros Hin; apply In_strip in Hin.
  destruct (partition [","%char] (c :: rest)) as [[first tail]|] eqn:E.
  - exact (partition_char_before _ _ _ _ E Hin).
  - exact (partition_char_none _ _ E Hin).
Qed.

(** ** The counter and the access log *)

Lemma label_values_eqb_eq (a b : label_values) :
  label_values_eqb a b = true <-> a = b.
Proof.
  destruct a as [[[a1 a2] a3] a4], b as [[[b1 b2] b3] b4]; cbn [label_values_eqb].
  rewrite !andb_true_iff, !str_eqb_eq; split.
  - intros [[[-> ->] ->] ->]; reflexivity.
  - intros H; injection H as -> -> -> ->; auto.
Qed.

Lemma label_values_eqb_refl (a : label_values) : label_values_eqb a a = true.
Proof. now apply label_values_eqb_eq. Qed.

Lemma label_values_eqb_neq (a b : label_values) :
  a <> b -> label_values_eqb a b = false.
Proof.
  intros H; destruct (label_values_eqb a b) eqn:E; [|reflexivity].
  now apply label_values_eqb_eq in E.
Qed.

Lemma count_of_inc_same (key : label_values) (children : list (label_values * Z)) :
  count_of key (inc key children) = count_of key children + 1.
Proof.
  induction children as [|[k v] rest IH]; cbn [inc count_of].
  - now rewrite label_values_eqb_refl.
  - destruct (label_values_eqb k key) eqn:E; cbn [count_of]; rewrite E;
      [reflexivity | exact IH].
Qed.

Lemma count_of_inc_other (key other : label_values)
      (children : list (label_values * Z)) :
  other <> key -> count_of other (inc key children) = count_of other children.
Proof.
  intros Hne; induction children as [|[k v] rest IH]; cbn [inc count_of].
  - rewrite label_values_eqb_neq by congruence; reflexivity.
  - destruct (label_values_eqb k key) eqn:E; cbn [count_of].
    + apply label_values_eqb_eq in E; subst k.
      rewrite label_values_eqb_neq by congruence; reflexivity.
    + destruct (label_values_eqb k other); [reflexivity | exact IH].
Qed.

Lemma request_country_not_empty (r : request) : request_country r <> [].
Proof.
  unfold request_country, or_else.
  destruct (headers r "CF-IPCountry") as [[|c s]|]; cbn [truthy_option truthy];
    try discriminate.
  all: destruct (headers r "X-Geo-Country") as [[|c s]|];
    cbn [truthy_option truthy negb get_or]; discriminate.
Qed.

Lemma get_client_ip_total (r : request) : exists ip, _get_client_ip r = Ok ip.
Proof.
  unfold _get_client_ip.
  destruct (get_or (headers r "X-Forwarded-For") "") as [|c rest] eqn:E;
    cbn [truthy].
  - destruct (truthy_option (headers r "X-Real-IP")); eauto.
  - rewrite split_first by discriminate; cbn [bind]; eauto.
Qed.

(** X11. A request for the metrics endpoint or for a path under /static/
    changes neither the counter nor the access log.  Any other request is
    counted exactly once, whatever its status: the child of its method,
    rule, status and country goes up by one and no other child changes;
    the country label is never empty; the access log grows by one line when
    [LOG_IPS] is on and not at all when it is off.  Recording never
    raises. *)
Theorem request_counted_once (log_ips : bool) (utcnow : str) (r : request)
        (status_code : Z) (state : telemetry) :
  exists state',
    record_request_metrics log_ips utcnow r status_code state = Ok state'
    /\ if is_endpoint r "metrics" || startswith "/static/" (path r)
       then state' = state
       else
         let key :=
           (method r,
            match url_rule r with Some rule => rule | None => lit "not_found" end,
            str_of_int status_code, request_country r) in
         count_of key (REQUEST_COUNT state')
         = count_of key (REQUEST_COUNT state) + 1
         /\ (forall other,
               other <> key ->
               count_of other (REQUEST_COUNT state')
               = count_of other (REQUEST_COUNT state))
         /\ request_country r <> []
         /\ length (access_log state')
            = (length (access_log state) + if log_ips then 1 else 0)%nat
         /\ firstn (length (access_log state)) (access_log state')
            = access_log state.
Proof.
  unfold record_request_metrics.
  destruct (is_endpoint r "metrics" || startswith "/static/" (path r));
    [eexists; split; reflexivity|].
  destruct log_ips.
  - destruct (get_client_ip_total r) as [ip ->]; cbn [bind].
    eexists; split; [reflexivity|]; cbn zeta; cbn [REQUEST_COUNT access_log].
    split; [apply count_of_inc_same|].
    split; [intros other Hne; now apply count_of_inc_other|].
    split; [apply request_country_not_empty|].
    split; [rewrite length_app; reflexivity|].
    rewrite firstn_app, Nat.sub_diag, firstn_all; cbn [firstn]; apply app_nil_r.
  - eexists; split; [reflexivity|]; cbn zeta; cbn [REQUEST_COUNT access_log].
    split; [apply count_of_inc_same|].
    split; [intros other Hne; now apply count_of_inc_other|].
    split; [apply request_country_not_empty|].
    split; [now rewrite Nat.add_0_r | apply firstn_all].
Qed.

(** ** The lines of the access log *)

Lemma json_char_printable (c : ascii) : forallb printable (json_char c) = true.
Proof. destruct c as [[] [] [] [] [] [] [] []]; reflexivity. Qed.

Lemma forallb_concat {X : Type} (p : X -> bool) (l : list (list X)) :
  forallb (forallb p) l = true -> forallb p (concat l) = true.
Proof.
  induction l as [|x l IH]; cbn [forallb concat]; [reflexivity|].
  intros H; apply andb_prop in H as [Hx Hl].
  now rewrite forallb_app, Hx, IH.
Qed.

Lemma json_string_printable (s : str) : forallb printable (json_string s) = true.
Proof.
  unfold json_string; rewrite !forallb_app; cbn [forallb].
  rewrite forallb_concat; [reflexivity|].
  induction s as [|c s IH]; cbn [map forallb]; [reflexivity|].
  now rewrite json_char_printable, IH.
Qed.

Lemma uint_printable (d : Decimal.uint) :
  forallb printable
    (String.list_ascii_of_string (DecimalString.NilEmpty.string_of_uint d)) = true.
Proof.
  induction d; cbn [DecimalString.NilEmpty.string_of_uint
                      String.list_ascii_of_string forallb];
    try reflexivity; exact IHd.
Qed.

Lemma str_of_int_printable (n : Z) : forallb printable (str_of_int n) = true.
Proof.
  unfold str_of_int, DecimalString.NilZero.string_of_int.
  destruct (Z.to_int n) as [d|d]; unfold DecimalString.NilZero.string_of_uint.
  - destruct d; try reflexivity; apply uint_printable.
  - cbn [String.list_ascii_of_string forallb andb].
    change (printable "-") with true; cbn [andb].
    destruct d; try reflexivity; apply uint_printable.
Qed.

Lemma join_printable (sep : str) (items : list str) :
  forallb printable sep = true ->
  forallb (forallb printable) items = true ->
  forallb printable (join sep items) = true.
Proof.
  intros Hsep; induction items as [|x items IH]; cbn [forallb]; [reflexivity|].
  intros H; apply andb_prop in H as [Hx Hl].
  destruct items as [|y items]; [exact Hx|].
  rewrite join_cons by discriminate.
  now rewrite !forallb_app, Hx, Hsep, IH.
Qed.

Lemma json_dumps_printable (d : list (str * json_value)) :
  forallb printable (json_dumps d) = true.
Proof.
  unfold json_dumps; rewrite !forallb_app.
  rewrite join_printable; [reflexivity | reflexivity |].
  induction d as [|[k v] d IH]; cbn [map forallb]; [reflexivity|].
  rewrite IH, andb_true_r; unfold json_item; cbn [fst snd].
  rewrite !forallb_app, json_string_printable; cbn [andb].
  destruct v; cbn [forallb andb];
    [apply json_string_printable | apply str_of_int_printable].
Qed.

(** X12. Whatever a request carries in its path and headers, line breaks
    and control characters included, the line it adds to the access log is
    made of the characters from space to tilde only: one request is one
    line, and no request can forge a second one. *)
Theorem access_log_line_printable (utcnow : str) (r : request) (status_code : Z)
        (state : telemetry) :
  exists state' line,
    record_request_metrics true utcnow r status_code state = Ok state'
    /\ (if is_endpoint r "metrics" || startswith "/static/" (path r)
        then state' = state
        else access_log state' = access_log state ++ [line])
    /\ forallb printable line = true
    /\ forallb (fun c => negb (is_linebreak c)) line = true.
Proof.
  assert (Hp : forall line, forallb printable line = true ->
                            forallb (fun c => negb (is_linebreak c)) line = true).
  { intros line H; rewrite forallb_forall in *; intros c Hc.
    specialize (H c Hc); revert H.
    destruct c as [[] [] [] [] [] [] [] []]; vm_compute; congruence. }
  unfold record_request_metrics.
  destruct (is_endpoint r "metrics" || startswith "/static/" (path r)).
  - exists state, []; repeat split; reflexivity.
  - destruct (get_client_ip_total r) as [ip ->]; cbn [bind].
    eexists _, _; split; [reflexivity|]; cbn [access_log].
    split; [reflexivity|].
    split; [|apply Hp]; apply json_dumps_printable.
Qed.

(** ** The excerpt of a document *)

Lemma blank_strip (s : str) : forallb isspace (strip s) = forallb isspace s.
Proof.
  destruct (forallb isspace s) eqn:E.
  - now rewrite strip_blank.
  - pose proof (strip_truthy s) as H; rewrite E in H.
    pose proof (strip_truthy (strip s)) as H'; rewrite strip_fixed, H in H'.
    now destruct (forallb isspace (strip s)).
Qed.

Lemma blank_join (lines : list str) :
  forallb isspace (join NL lines) = forallb (forallb isspace) lines.
Proof.
  induction lines as [|x lines IH]; cbn [forallb]; [reflexivity|].
  destruct lines as [|y lines]; [cbn [join forallb]; now rewrite andb_true_r|].
  rewrite join_cons by discriminate.
  now rewrite !forallb_app, IH.
Qed.

Section ExcerptFacts.
Context {runtime : Runtime}.

(** X13. The excerpt of a document is taken from the lines after the title
    line that are not field lines: the title never shows in it, nor does a
    date, status, deadline or progress line.  It is empty exactly when all
    those lines are blank.  This holds of posts, with the date line as the
    only field, and of roadmap entries. *)
Theorem excerpt_of_document (md_text : str) :
  let lines := document_body (map rstrip (splitlines md_text)) in
  let post_body := filter (fun line => negb (is_field "date" line)) lines in
  let entry_body := filter (fun line => negb (is_roadmap_field line)) lines in
  (exists excerpt,
     parsed_excerpt md_text = Ok excerpt
     /\ excerpt = _extract_excerpt (strip (join NL post_body))
     /\ truthy excerpt = negb (forallb (forallb isspace) post_body))
  /\ (exists excerpt,
        parsed_entry_excerpt md_text = Ok excerpt
        /\ excerpt = _extract_excerpt (strip (join NL entry_body))
        /\ truthy excerpt = negb (forallb (forallb isspace) entry_body)).
Proof.
  cbn zeta; unfold parsed_excerpt, parsed_entry_excerpt.
  unfold _parse_markdown, _parse_roadmap_entry, document_body.
  set (lines := map rstrip (splitlines md_text)).
  split.
  - destruct (title_line lines) as [line0|];
      rewrite post_loop_last; cbn [bind app];
      (eexists; split; [reflexivity|]; split; [reflexivity|]);
      now rewrite excerpt_truthy, blank_strip, blank_join.
  - destruct (title_line lines) as [line0|];
      rewrite roadmap_loop_last; cbn [bind app];
      (eexists; split; [reflexivity|]; split; [reflexivity|]);
      now rewrite excerpt_truthy, blank_strip, blank_join.
Qed.

End ExcerptFacts.

(** * The documents as they are written

    The statements of this part name the title line and the body of a
    document by the text itself: the first line, trimmed on the right,
    starts with "# ". *)

Lemma document_body_lines (lines : list str) :
  document_body lines
  = match lines with
    | line0 :: rest => if startswith "# " line0 then rest else line0 :: rest
    | [] => []
    end.
Proof.
  unfold document_body, title_line; destruct lines as [|line0 rest]; [reflexivity|].
  destruct (startswith "# " line0); reflexivity.
Qed.

Lemma last_field_app (key : str) (a b : list str) :
  last_field key (a ++ b)
  = match last_field key b with
    | Some v => Some v
    | None => last_field key a
    end.
Proof.
  unfold last_field; rewrite rev_app_distr.
  induction (rev b) as [|x l IH]; cbn [app find option_map]; [reflexivity|].
  destruct (is_field key x && truthy (field_value x)); [reflexivity | exact IH].
Qed.

Lemma last_field_one (key line : str) :
  last_field key [line]
  = if is_field key line && truthy (field_value line)
    then Some (field_value line) else None.
Proof.
  unfold last_field; cbn [rev app find].
  destruct (is_field key line && truthy (field_value line)); reflexivity.
Qed.

Lemma last_progress_app (a b : list str) :
  last_progress (a ++ b)
  = match last_progress b with
    | Some p => Some p
    | None => last_progress a
    end.
Proof.
  induction b as [|x b IH] using rev_ind.
  - now rewrite app_nil_r.
  - rewrite app_assoc, !last_progress_snoc, IH.
    destruct (is_field "progress" x); [|reflexivity].
    destruct (code_progress (field_value x)); reflexivity.
Qed.

Lemma last_progress_one (line : str) :
  last_progress [line]
  = if is_field "progress" line then code_progress (field_value line) else None.
Proof.
  change [line] with ([] ++ [line]); rewrite last_progress_snoc.
  destruct (is_field "progress" line); [|reflexivity].
  destruct (code_progress (field_value line)); reflexivity.
Qed.

Section WrittenDocuments.
Context {runtime : Runtime}.

(** The fields of a document, from the lines of its body. *)
Lemma parsed_fields (md_text : str) :
  let body := document_body (map rstrip (splitlines md_text)) in
  parsed_status md_text
  = Ok (match last_field "status" body with Some v => v | None => lit "Now" end)
  /\ parsed_deadline md_text = Ok (last_field "deadline" body)
  /\ parsed_progress md_text = Ok (last_progress body)
  /\ parsed_published md_text
     = Ok (match last_field "date" body with
           | Some v => fromisoformat v
           | None => None
           end).
Proof.
  intros body; subst body.
  unfold parsed_status, parsed_deadline, parsed_progress, parsed_published.
  unfold _parse_roadmap_entry, _parse_markdown, document_body.
  set (lines := map rstrip (splitlines md_text)).
  destruct (title_line lines) as [line0|]; cbn [skipn];
    rewrite roadmap_loop_last, post_loop_last; cbn [bind];
    repeat split; try reflexivity;
    try (destruct (last_field "deadline" _); reflexivity);
    try (destruct (last_progress _); reflexivity).
Qed.

(** C10. In a document with several field lines of one key the stored value
    is decided by the last of them that counts, by a rule of its own for
    each key.  Let the body of the document, the lines after a title line,
    be [earlier ++ line :: later].  When [line] is a status line and no
    status line of [later] has a value, the status stored is the value of
    [line] when that is not empty, and what the earlier lines gave when it
    is empty; the same holds of the deadline.  When [line] is a progress
    line and no progress line of [later] reads as an integer in [0,100],
    the progress stored is that of [line] when it reads so, and what the
    earlier lines gave otherwise.  When [line] is a date line and no date
    line of [later] has a value, [published_at] is what [fromisoformat]
    gives on the value of [line] when it is not empty: a value that does
    not parse resets it to absent whatever the earlier lines gave. *)
Theorem later_field_lines_override (md_text : str) (earlier later : list str)
        (line : str) :
  match map rstrip (splitlines md_text) with
  | line0 :: rest => if startswith "# " line0 then rest else line0 :: rest
  | [] => []
  end = earlier ++ line :: later ->
  (is_field "status" line = true ->
   last_field "status" later = None ->
   parsed_status md_text
   = Ok (if truthy (field_value line) then field_value line
         else match last_field "status" earlier with
              | Some v => v
              | None => lit "Now"
              end))
  /\ (is_field "deadline" line = true ->
      last_field "deadline" later = None ->
      parsed_deadline md_text
      = Ok (if truthy (field_value line) then Some (field_value line)
            else last_field "deadline" earlier))
  /\ (is_field "progress" line = true ->
      last_progress later = None ->
      parsed_progress md_text
      = Ok (match code_progress (field_value line) with
            | Some p => Some p
            | None => last_progress earlier
            end))
  /\ (is_field "date" line = true ->
      last_field "date" later = None ->
      parsed_published md_text
      = Ok (if truthy (field_value line) then fromisoformat (field_value line)
            else match last_field "date" earlier with
                 | Some v => fromisoformat v
                 | None => None
                 end)).
Proof.
  intros Hbody.
  destruct (parsed_fields md_text) as (Hs & Hd & Hp & Hpub).
  cbn zeta in Hs, Hd, Hp, Hpub.
  rewrite document_body_lines, Hbody in Hs, Hd, Hp, Hpub.
  change (line :: later) with ([line] ++ later) in Hs, Hd, Hp, Hpub.
  rewrite !last_field_app, !last_field_one in Hs, Hd, Hpub.
  rewrite !last_progress_app, last_progress_one in Hp.
  repeat split.
  - intros Hf Hl; rewrite Hs, Hl, Hf; cbn [andb].
    destruct (truthy (field_value line)); reflexivity.
  - intros Hf Hl; rewrite Hd, Hl, Hf; cbn [andb].
    destruct (truthy (field_value line)); reflexivity.
  - intros Hf Hl; rewrite Hp, Hl, Hf.
    destruct (code_progress (field_value line)); reflexivity.
  - intros Hf Hl; rewrite Hpub, Hl, Hf; cbn [andb].
    destruct (truthy (field_value line)); reflexivity.
Qed.

(** The title of a document and what the fallback does. *)
Lemma parsed_titles_written (md_text : str) :
  let title : str :=
    match map rstrip (splitlines md_text) with
    | line0 :: _ =>
        if startswith "# " line0 then lstrip_with isspace (skipn 2 line0)
        else "Untitled"
    | [] => "Untitled"
    end in
  parsed_title md_text = Ok title
  /\ parsed_entry_title md_text = Ok title
  /\ title <> [].
Proof.
  cbn zeta.
  destruct (parsed_titles md_text) as [Hp He]; cbn zeta in Hp, He.
  pose proof (title_line_text md_text) as Ht.
  unfold title_line in *.
  destruct (map rstrip (splitlines md_text)) as [|line0 rest];
    [repeat split; try assumption; discriminate|].
  destruct (startswith "# " line0);
    [|repeat split; try assumption; discriminate].
  destruct (Ht line0 eq_refl) as [Hs Hne].
  rewrite Hs in Hp, He.
  destruct (lstrip_with isspace (skipn 2 line0)) as [|c t] eqn:El; [contradiction|].
  cbn [truthy] in *; repeat split; try assumption; discriminate.
Qed.

(** X1. Both parsers give a document the same title, and the title is
    never empty.  When the first line of the document, trimmed on the
    right, starts with "# ", the title is the rest of that line without its
    leading blanks: the fallback to "Untitled" behind [or] is never taken
    there.  Otherwise, and for the empty document, the title is
    "Untitled".  So "# Hello  " gives "Hello" and "#Hello" gives
    "Untitled". *)
Theorem title_of_document :
  (forall md_text : str,
     let title : str :=
       match map rstrip (splitlines md_text) with
       | line0 :: _ =>
           if startswith "# " line0 then lstrip_with isspace (skipn 2 line0)
           else "Untitled"
       | [] => "Untitled"
       end in
     parsed_title md_text = Ok title
     /\ parsed_entry_title md_text = Ok title
     /\ title <> [])
  /\ parsed_title ("#   Hello  " ++ NL ++ "body") = Ok (lit "Hello")
  /\ parsed_entry_title ("#   Hello  " ++ NL ++ "body") = Ok (lit "Hello")
  /\ parsed_title "#Hello" = Ok (lit "Untitled")
  /\ parsed_entry_title ("body" ++ NL ++ "# Hello") = Ok (lit "Untitled").
Proof.
  split; [exact parsed_titles_written|].
  refine (conj _ (conj _ (conj _ _))); vm_compute; reflexivity.
Qed.

(** The markup of a document, by its lines. *)
Lemma parsed_markup (md_text : str) :
  let lines := map rstrip (splitlines md_text) in
  let not_date := fun line => negb (is_field "date" line) in
  let not_field := fun line => negb (is_roadmap_field line) in
  parsed_html md_text
  = Ok (markdown
          (strip (join NL
             match lines with
             | line0 :: rest =>
                 if startswith "# " line0 then line0 :: filter not_date rest
                 else filter not_date lines
             | [] => []
             end))
          extensions)
  /\ parsed_entry_html md_text
     = Ok (markdown
             (strip (join NL
                match lines with
                | line0 :: rest =>
                    if startswith "# " line0 then filter not_field rest
                    else filter not_field lines
                | [] => []
                end))
             extensions).
Proof.
  cbn zeta; unfold parsed_html, parsed_entry_html.
  unfold _parse_markdown, _parse_roadmap_entry, title_line.
  destruct (map rstrip (splitlines md_text)) as [|line0 rest].
  - cbn [skipn]; rewrite post_loop_last, roadmap_loop_last; split; reflexivity.
  - destruct (startswith "# " line0); cbn [skipn];
      rewrite post_loop_last, roadmap_loop_last; split; reflexivity.
Qed.

(** C8. The text handed to the markdown renderer for [content_html] is, for
    a Post whose first line, trimmed on the right, starts with "# ", that
    title line followed by the later lines that are not date lines, joined
    by newlines and trimmed: it starts with the title line itself.  For a
    RoadmapEntry it is built from the lines after the title line only,
    those that are not field lines: the title line is left out.  Without a
    title line both are built from all the lines.  This holds for every
    document and every renderer. *)
Theorem markup_title_asymmetry (md_text : str) :
  let lines := map rstrip (splitlines md_text) in
  let not_date := fun line => negb (is_field "date" line) in
  let not_field := fun line => negb (is_roadmap_field line) in
  parsed_html md_text
  = Ok (markdown
          (strip (join NL
             match lines with
             | line0 :: rest =>
                 if startswith "# " line0 then line0 :: filter not_date rest
                 else filter not_date lines
             | [] => []
             end))
          extensions)
  /\ parsed_entry_html md_text
     = Ok (markdown
             (strip (join NL
                match lines with
                | line0 :: rest =>
                    if startswith "# " line0 then filter not_field rest
                    else filter not_field lines
                | [] => []
                end))
             extensions)
  /\ (forall line0 rest,
        lines = line0 :: rest ->
        startswith "# " line0 = true ->
        exists tail,
          strip (join NL (line0 :: filter not_date rest)) = line0 ++ tail).
Proof.
  cbn zeta; destruct (parsed_markup md_text) as [Hp He]; cbn zeta in Hp, He.
  split; [exact Hp|]; split; [exact He|].
  intros line0 rest Hl Hs.
  assert (Hr : rstrip line0 = line0).
  { destruct (splitlines md_text) as [|l ls]; [discriminate|].
    injection Hl as <- _; apply rstrip_fixed. }
  apply startswith_app in Hs as [r ->].
  change (lit "# " ++ r) with ("#"%char :: " "%char :: r) in *.
  set (title := "#"%char :: " "%char :: r) in *.
  destruct (filter (fun line => negb (is_field "date" line)) rest) as [|b bs].
  - destruct (strip_keeps_prefix "#" (" "%char :: r) [] eq_refl Hr) as [rest0 H0].
    rewrite app_nil_r in H0; exists rest0; exact H0.
  - change (join NL (title :: b :: bs)) with (title ++ NL ++ join NL (b :: bs)).
    apply strip_keeps_prefix; [reflexivity | exact Hr].
Qed.

End WrittenDocuments.

(** A post and an entry of one text under the reference runtime, whose
    renderer hands the markup back: the title line leads the markup of the
    post and is missing from that of the entry. *)
Lemma markup_title_asymmetry_witness :
  @parsed_html cpython_utc titled_document
  = Ok ("# Title" ++ NL ++ "status: Next" ++ NL ++ "body")
  /\ @parsed_entry_html cpython_utc titled_document
     = Ok ("date: 2024-01-01" ++ NL ++ "body")
  /\ exists tail,
       lit "# Title" ++ NL ++ "status: Next" ++ NL ++ "body" = "# Title" ++ tail.
Proof.
  destruct (@markup_title_asymmetry cpython_utc titled_document) as (Hp & He & Ht).
  split; [exact Hp|]; split; [exact He|].
  exact (Ht "# Title" [lit "date: 2024-01-01"; lit "status: Next"; lit "body"] eq_refl eq_refl).
Defined.

(** Documents with repeated field lines, read under the reference runtime:
    an empty status leaves the earlier one, a progress out of range leaves
    the earlier one, and a date that does not parse resets the earlier
    one. *)
Lemma later_field_lines_override_witness :
  @parsed_status cpython_utc ("status: Next" ++ NL ++ "status:") = Ok (lit "Next")
  /\ @parsed_status cpython_utc ("status: Next" ++ NL ++ "Status: Done" ++ NL ++ "text")
     = Ok (lit "Done")
  /\ @parsed_deadline cpython_utc
       ("# T" ++ NL ++ "deadline: soon" ++ NL ++ "deadline: 2030-01-01")
     = Ok (Some (lit "2030-01-01"))
  /\ @parsed_progress cpython_utc ("progress: 40" ++ NL ++ "progress: 60") = Ok (Some 60)
  /\ @parsed_progress cpython_utc ("progress: 40" ++ NL ++ "progress: 140") = Ok (Some 40)
  /\ @parsed_published cpython_utc ("date: 2024-01-01" ++ NL ++ "date: tomorrow")
     = Ok None
  /\ @parsed_published cpython_utc ("date: 2024-01-01" ++ NL ++ "date:")
     = Ok (Some (Naive 63839664000000000)).
Proof.
  refine (conj _ (conj _ (conj _ (conj _ (conj _ (conj _ _)))))).
  - exact (proj1 (@later_field_lines_override cpython_utc
                    ("status: Next" ++ NL ++ "status:")
                    [lit "status: Next"] [] "status:" eq_refl) eq_refl eq_refl).
  - exact (proj1 (@later_field_lines_override cpython_utc
                    ("status: Next" ++ NL ++ "Status: Done" ++ NL ++ "text")
                    [lit "status: Next"] [lit "text"] "Status: Done" eq_refl)
             eq_refl eq_refl).
  - exact (proj1 (proj2 (@later_field_lines_override cpython_utc
                    ("# T" ++ NL ++ "deadline: soon" ++ NL ++ "deadline: 2030-01-01")
                    [lit "deadline: soon"] [] "deadline: 2030-01-01" eq_refl))
             eq_refl eq_refl).
  - exact (proj1 (proj2 (proj2 (@later_field_lines_override cpython_utc
                    ("progress: 40" ++ NL ++ "progress: 60")
                    [lit "progress: 40"] [] "progress: 60" eq_refl)))
             eq_refl eq_refl).
  - exact (proj1 (proj2 (proj2 (@later_field_lines_override cpython_utc
                    ("progress: 40" ++ NL ++ "progress: 140")
                    [lit "progress: 40"] [] "progress: 140" eq_refl)))
             eq_refl eq_refl).
  - exact (proj2 (proj2 (proj2 (@later_field_lines_override cpython_utc
                    ("date: 2024-01-01" ++ NL ++ "date: tomorrow")
                    [lit "date: 2024-01-01"] [] "date: tomorrow" eq_refl)))
             eq_refl eq_refl).
  - exact (proj2 (proj2 (proj2 (@later_field_lines_override cpython_utc
                    ("date: 2024-01-01" ++ NL ++ "date:")
                    [lit "date: 2024-01-01"] [] "date:" eq_refl)))
             eq_refl eq_refl).
Defined.

(** * The loaders with their reads *)

(** ** Sorting and mapping *)

Section SortMap.
Context {K A B : Type} (ltb : K -> K -> bool) (g : A -> B).





End SortMap.





(** ** What was read *)





Section ReadFacts.
Context {runtime : Runtime}.







End ReadFacts.

(** ** The entries and posts that are built *)


Section BuiltFacts.
Context {runtime : Runtime}.




(** ** The order of the posts *)



End BuiltFacts.


(** ** The pages with their reads *)

Section ServedFacts.
Context {runtime : Runtime}.









End ServedFacts.

(** One file that cannot be decoded fails the page of the readable post,
    the list and the homepage, with the exception of the read. *)
Example undecodable_file_fails_the_pages :
  @IO.venting_post cpython_utc undecodable_directory "hello"
  = Raise UnicodeDecodeError
  /\ @IO.venting_list cpython_utc undecodable_directory = Raise UnicodeDecodeError
  /\ @IO.index cpython_utc (fun _ => 0) undecodable_directory blog_directory
     = Raise UnicodeDecodeError
  /\ @IO.venting_post cpython_utc blog_directory "missing" = Raise NotFound.
Proof. repeat split; vm_compute; reflexivity. Qed.

(** ** The progress of a document *)

Lemma code_progress_some (value : str) (p : Z) :
  code_progress value = Some p <->
  int (rstrip_chars "%" value) = Some p /\ 0 <= p <= 100.
Proof.
  unfold code_progress; destruct (int _) as [n|].
  - destruct ((0 <=? n) && (n <=? 100)) eqn:E; split.
    + intros H; injection H as <-; split; [reflexivity | lia].
    + intros [H _]; exact H.
    + discriminate.
    + intros [H Hr]; injection H as ->; lia.
  - split; [discriminate | intros [H _]; discriminate].
Qed.

Lemma last_progress_some (lines : list str) (p : Z) :
  last_progress lines = Some p ->
  exists line,
    In line lines /\ is_field "progress" line = true
    /\ code_progress (field_value line) = Some p.
Proof.
  unfold last_progress; destruct (find _ _) as [line|] eqn:E; [|discriminate].
  apply find_some in E as [Hin Hp]; apply andb_prop in Hp as [Hf _].
  intros H; exists line; split; [now apply in_rev | auto].
Qed.

Lemma last_progress_none (lines : list str) (line : str) :
  last_progress lines = None ->
  In line lines -> is_field "progress" line = true ->
  code_progress (field_value line) = None.
Proof.
  unfold last_progress; destruct (find _ _) as [found|] eqn:E.
  - apply find_some in E as [_ Hp]; apply andb_prop in Hp as [_ Hc].
    destruct (code_progress (field_value found)); discriminate.
  - intros _ Hin Hf.
    pose proof (find_none _ _ E line (proj1 (in_rev _ _) Hin)) as Hn.
    cbn beta in Hn; rewrite Hf in Hn; cbn [andb] in Hn.
    destruct (code_progress (field_value line)); [discriminate | reflexivity].
Qed.

Section ProgressFacts.
Context {runtime : Runtime}.

(** C3, as amended.  The progress of a roadmap document is present only
    when a progress line of its body has a value that, after every trailing
    [%] is removed from it (not one only), reads as an integer in [0,100]:
    the progress stored is then such an integer read from such a line, and
    nothing is clamped.  A progress line whose value is out of range or not
    a number is treated as absent: it leaves the progress as the lines
    before it made it.  The documents "progress: 105", "progress: -1" and
    "progress: abc" give no progress, "progress: 50%" gives 50, and so
    does "progress: 50%%". *)
Theorem progress_field_rule :
  (forall md_text : str,
     let body :=
       match map rstrip (splitlines md_text) with
       | line0 :: rest => if startswith "# " line0 then rest else line0 :: rest
       | [] => []
       end in
     match parsed_progress md_text with
     | Ok (Some p) =>
         0 <= p <= 100
         /\ exists line,
              In line body /\ is_field "progress" line = true
              /\ int (rstrip_chars "%" (field_value line)) = Some p
     | Ok None =>
         forall line,
           In line body -> is_field "progress" line = true ->
           match int (rstrip_chars "%" (field_value line)) with
           | Some n => n < 0 \/ 100 < n
           | None => True
           end
     | Raise _ => False
     end)
  /\ (forall st line,
        is_field "progress" line = true ->
        roadmap_line st line
        = Ok (let '(status, deadline, progress, body_lines) := st in
              (status, deadline,
               match int (rstrip_chars "%" (field_value line)) with
               | Some parsed =>
                   if (0 <=? parsed) && (parsed <=? 100) then Some parsed
                   else progress
               | None => progress
               end,
               body_lines)))
  /\ parsed_progress "progress: 105" = Ok None
  /\ parsed_progress "progress: -1" = Ok None
  /\ parsed_progress "progress: abc" = Ok None
  /\ parsed_progress "progress: 50%" = Ok (Some 50)
  /\ parsed_progress "progress: 50%%" = Ok (Some 50).
Proof.
  split; [|split; [|repeat split; reflexivity]].
  - intros md_text body.
    destruct (parsed_fields md_text) as (_ & _ & Hp & _); cbn zeta in Hp.
    rewrite document_body_lines in Hp; fold body in Hp; rewrite Hp.
    destruct (last_progress body) as [p|] eqn:E.
    + apply last_progress_some in E as (line & Hin & Hf & Hc).
      apply code_progress_some in Hc as [Hi Hr].
      split; [exact Hr | exists line; auto].
    + intros line Hin Hf.
      pose proof (last_progress_none _ _ E Hin Hf) as Hc.
      destruct (int (rstrip_chars "%" (field_value line))) as [n|] eqn:Hi;
        [|exact I].
      destruct (Z_lt_ge_dec n 0) as [Hn|Hn]; [now left|].
      destruct (Z_lt_ge_dec 100 n) as [Hm|Hm]; [now right|].
      assert (Hs : code_progress (field_value line) = Some n)
        by (apply code_progress_some; split; [exact Hi | lia]).
      congruence.
  - intros [[[status deadline] progress] body_lines] line H.
    rewrite (roadmap_line_progress _ _ H); unfold code_progress.
    destruct (int _) as [parsed|]; [|reflexivity].
    destruct ((0 <=? parsed) && (parsed <=? 100)); reflexivity.
Qed.

End ProgressFacts.

(** A progress line with two percent signs after an earlier progress
    line, and one out of range after it. *)
Lemma progress_field_rule_witness :
  roadmap_line (lit "Now", None, Some 20, []) "progress: 50%%"
  = Ok (lit "Now", None, Some 50, [])
  /\ roadmap_line (lit "Now", None, Some 20, []) "progress: 105"
     = Ok (lit "Now", None, Some 20, []).
Proof.
  split.
  - apply (proj1 (proj2 (@progress_field_rule cpython_utc))
             (lit "Now", None, Some 20, []) "progress: 50%%"); reflexivity.
  - apply (proj1 (proj2 (@progress_field_rule cpython_utc))
             (lit "Now", None, Some 20, []) "progress: 105"); reflexivity.
Defined.
